(** * client.py: an Arrow Flight smoke-test script, embedded and verified

    The script talks to one Flight server through a [FlightClient]: it waits
    for the server, lists its actions, runs one [cypherRead] action, lists
    the flights and fetches each of them, printing what it receives.

    The embedding keeps the script as it is written: a sequence of
    statements in a small monad that threads the connection, collects the
    RPC calls and printed lines in order, and ends normally, by an
    exception, or by [sys.exit].  The server is a parameter (a transport
    with a state of its own); every theorem quantifies over it. *)

From Stdlib Require Import String Ascii Strings.Byte ZArith Bool Lia List Sorted.
Import ListNotations.
Local Open Scope string_scope.
Local Open Scope Z_scope.
Local Open Scope list_scope.

Set Implicit Arguments.

(** ** Byte strings and [base64.b64encode] *)

(** Python [bytes].  A literal [b'...'] of ASCII characters is the list of
    the bytes of its characters. *)
Definition bytes : Type := list byte.

Definition bytes_lit (s : string) : bytes := list_byte_of_string s.

(** [str.encode('utf8')]: the strings of the script are written in UTF-8
    already, so encoding exposes their bytes. *)
Definition encode_utf8 (s : string) : bytes := list_byte_of_string s.

Module Base64.

(** The standard alphabet of RFC 4648, as [base64.b64encode] uses it
    when no [altchars] are given. *)
Definition alphabet : bytes :=
  bytes_lit "ABCDEFGHIJKLMNOPQRSTUVWXYZabcdefghijklmnopqrstuvwxyz0123456789+/".

Definition pad : byte := "="%byte.

Definition byte_val (x : byte) : Z := Z.of_N (Byte.to_N x).

(** The character of a 6-bit group. *)
Definition sextet (n : Z) (shift : Z) : byte :=
  nth (Z.to_nat (Z.land (Z.shiftr n shift) 63)) alphabet pad.

(** Three input bytes make one 24-bit group and four characters; a last
    group of one or two bytes is filled with zero bits and padded. *)
Fixpoint b64encode (s : bytes) : bytes :=
  match s with
  | [] => []
  | [x] =>
      let n := Z.shiftl (byte_val x) 16 in
      [sextet n 18; sextet n 12; pad; pad]
  | [x; y] =>
      let n := Z.lor (Z.shiftl (byte_val x) 16) (Z.shiftl (byte_val y) 8) in
      [sextet n 18; sextet n 12; sextet n 6; pad]
  | x :: y :: z :: rest =>
      let n := Z.lor (Z.lor (Z.shiftl (byte_val x) 16)
                            (Z.shiftl (byte_val y) 8)) (byte_val z) in
      sextet n 18 :: sextet n 12 :: sextet n 6 :: sextet n 0
        :: b64encode rest
  end.

End Base64.

(** ** Exceptions

    The classes that matter to the script: the errors of [pyarrow.flight],
    the two built-in errors the script can hit itself, any other class
    deriving from [Exception], and [KeyboardInterrupt], which derives from
    [BaseException] only. *)
Inductive exc_type : Type :=
| FlightUnauthenticatedError
| FlightUnauthorizedError
| FlightUnavailableError
| FlightTimedOutError
| FlightInternalError
| FlightCancelledError
| FlightServerError
| IndexError
| TypeError
| OtherException (name : string)
| KeyboardInterrupt.

Definition exc_type_eq_dec (a b : exc_type) : {a = b} + {a <> b}.
Proof. decide equality. apply string_dec. Defined.

(** [type(e) is t]: identity of the class, not [isinstance]. *)
Definition type_is (a b : exc_type) : bool :=
  if exc_type_eq_dec a b then true else false.

(** [isinstance(e, Exception)], which is what [except Exception] tests. *)
Definition is_Exception (t : exc_type) : bool :=
  match t with
  | KeyboardInterrupt => false
  | _ => true
  end.

(** An exception object: its class, its [args] as printed by [{e.args}]
    and its [str(e)] as printed by [{e}]. *)
Record exn : Type := mkExn {
  exc_class : exc_type;
  exc_args : list string;
  exc_str : string
}.

(** ** Data exchanged with the server *)

Definition location_t : Type := (string * Z)%type.

(** [FlightCallOptions(headers=[...])]. *)
Definition call_options : Type := list (bytes * bytes).

(** What [list_actions] returns: [ActionType(type, description)]. *)
Record action_type : Type := mkActionType {
  at_type : string;
  at_description : string
}.

(** The request of [do_action]: a (name, body) pair. *)
Definition action_t : Type := (string * bytes)%type.

(** A [Result] of [do_action]; [row.body.to_pybytes()] is [body]. *)
Record flight_result : Type := mkResult { body : bytes }.

Record ticket_t : Type := mkTicket { ticket_bytes : bytes }.

Record flight_endpoint : Type := mkEndpoint {
  ticket : ticket_t;
  locations : list string
}.

Record flight_descriptor : Type := mkDescriptor { command : bytes }.

Record flight_info : Type := mkFlightInfo {
  descriptor : flight_descriptor;
  endpoints : list flight_endpoint
}.

(** What iterating an RPC result, or any other object, produces: items one
    by one, then the end of the iteration or an exception.  Streams are
    finite: a server that never ends a stream keeps the script in its loop
    for ever, which no statement below is about. *)
Inductive stream (A : Type) : Type :=
| SStop
| SYield (a : A) (rest : stream A)
| SFail (e : exn).

Arguments SStop {A}.
Arguments SFail {A} e.

(** A column as the script shows it. *)
Definition column : Type := string.

(** One item of the reader returned by [do_get], unpacked by the script as
    [chunk, metadata].  [for col in chunk] iterates the batch; when the
    batch cannot be iterated (a chunk of metadata only has [None] for
    data) that iteration fails at once. *)
Record flight_stream_chunk : Type := mkChunk {
  data : stream column;
  app_metadata : option bytes
}.

(** ** What a run does, in order *)

Inductive rpc : Type :=
| WaitForAvailable (timeout : Z)
| ListActions (options : call_options)
| DoAction (action : action_t) (options : call_options)
| ListFlights (options : call_options)
| DoGet (t : ticket_t) (options : call_options).

(** The lines the script prints, by their format string. *)
Inductive line : Type :=
| LTrying (loc : location_t)
| LConnected
| LFailed (loc : location_t) (args : list string)
| LAuthRequired
| LZeroActions
| LFoundActions (n : nat)
| LAction (a : action_type)
| LRow (b : bytes)
| LWarn (msg : string)
| LZeroFlights
| LFoundFlights (n : nat)
| LFlight (cmd : bytes) (t : ticket_t)
| LChunk (chunk : stream column) (metadata : option bytes)
| LCol (col : column).

Inductive event : Type :=
| Call (c : rpc)
| Print (l : line).

(** How a statement ends.  [sys.exit] raises [SystemExit], which is not an
    [Exception]: no handler of the script catches it, so it is kept apart
    from the exceptions a handler may see. *)
Inductive completion (A : Type) : Type :=
| Normal (a : A)
| Raised (e : exn)
| Exited (code : Z).

Arguments Raised {A} e.
Arguments Exited {A} code.

(** What a call on the client gives back. *)
Inductive reply (A : Type) : Type :=
| Returns (a : A)
| Raises (e : exn).

Arguments Raises {A} e.

(** The client and the server behind it: a state, and for each method of
    [FlightClient] the script uses, the reply and the next state. *)
Record transport (St : Type) : Type := mkTransport {
  FlightClient : location_t -> St;
  wait_for_available : Z -> St -> reply unit * St;
  list_actions : call_options -> St -> reply (list action_type) * St;
  do_action : action_t -> call_options -> St -> reply (stream flight_result) * St;
  list_flights : call_options -> St -> reply (list flight_info) * St;
  do_get : ticket_t -> call_options -> St -> reply (stream flight_stream_chunk) * St
}.

Record outcome (St A : Type) : Type := mkOutcome {
  result : completion A;
  conn : St;
  trace : list event
}.

(** ** The statement monad *)

Section Statements.

Variable St : Type.

Definition M (A : Type) : Type := St -> outcome St A.

Definition ret {A} (a : A) : M A :=
  fun s => mkOutcome (Normal a) s [].

Definition bind {A B} (m : M A) (k : A -> M B) : M B :=
  fun s =>
    let o := m s in
    match result o with
    | Normal a =>
        let o' := k a (conn o) in
        mkOutcome (result o') (conn o') (trace o ++ trace o')
    | Raised e => mkOutcome (Raised e) (conn o) (trace o)
    | Exited c => mkOutcome (Exited c) (conn o) (trace o)
    end.

Definition raise {A} (e : exn) : M A :=
  fun s => mkOutcome (Raised e) s [].

Definition sys_exit {A} (code : Z) : M A :=
  fun s => mkOutcome (Exited code) s [].

Definition print (l : line) : M unit :=
  fun s => mkOutcome (Normal tt) s [Print l].

(** A method call on the client: recorded, then answered by the server. *)
Definition call {A} (c : rpc) (f : St -> reply A * St) : M A :=
  fun s =>
    let (r, s') := f s in
    mkOutcome (match r with
               | Returns a => Normal a
               | Raises e => Raised e
               end) s' [Call c].

(** [try: body  except Exception as e: handler]. *)
Definition try_except {A} (body : M A) (handler : exn -> M A) : M A :=
  fun s =>
    let o := body s in
    match result o with
    | Raised e =>
        if is_Exception (exc_class e)
        then let o' := handler e (conn o) in
             mkOutcome (result o') (conn o') (trace o ++ trace o')
        else o
    | _ => o
    end.

End Statements.

Arguments ret {St A} a.
Arguments bind {St A B} m k.
Arguments raise {St A} e.
Arguments sys_exit {St A} code.
Arguments print {St} l.
Arguments call {St A} c f.
Arguments try_except {St A} body handler.

Declare Scope stmt_scope.
Delimit Scope stmt_scope with stmt.
Notation "x <- m ;; k" := (bind m (fun x => k))
  (at level 61, m at next level, right associativity) : stmt_scope.
Notation "m ;; k" := (bind m (fun _ => k))
  (at level 61, right associativity) : stmt_scope.
Local Open Scope stmt_scope.

(** [for x in l: body], over a list already built. *)
Fixpoint for_in {St A} (l : list A) (loop_body : A -> M St unit) : M St unit :=
  match l with
  | [] => ret tt
  | x :: rest => loop_body x ;; for_in rest loop_body
  end.

(** [for x in it: body], over a lazy iteration. *)
Fixpoint for_stream {St A} (it : stream A) (loop_body : A -> M St unit) : M St unit :=
  match it with
  | SStop => ret tt
  | SYield x rest => loop_body x ;; for_stream rest loop_body
  | SFail e => raise e
  end.

(** [l[0]]. *)
Definition index0 {St A} (l : list A) : M St A :=
  match l with
  | x :: _ => ret x
  | [] => raise (mkExn IndexError ["list index out of range"] "list index out of range")
  end.

(** ** The script *)

(** [location = ("192.168.1.42", 9999)] *)
Definition location : location_t := ("192.168.1.42", 9999).

(** The user name and password inside the literal [b'neo4j:password']. *)
Definition username : string := "neo4j".
Definition password : string := "password".

(** [options = flight.FlightCallOptions(headers=[(b'authorization',
    b'Basic ' + base64.b64encode(b'neo4j:password'))])] *)
Definition options : call_options :=
  [(bytes_lit "authorization",
    bytes_lit "Basic " ++ Base64.b64encode (bytes_lit "neo4j:password"))].

(** [action = ("cypherRead", "UNWIND range(1, 23) AS n RETURN n".encode('utf8'))] *)
Definition action : action_t :=
  ("cypherRead", encode_utf8 "UNWIND range(1, 23) AS n RETURN n").

Section Client.

Variable St : Type.
Variable T : transport St.

(** [client = flight.FlightClient(location)] *)
Definition client : St := FlightClient T location.

(** The [try] around [client.wait_for_available(5)]. *)
Definition probe : M St unit :=
  try_except
    (call (WaitForAvailable 5) (wait_for_available T 5) ;;
     print LConnected)
    (fun e =>
       if negb (type_is (exc_class e) FlightUnauthenticatedError)
       then print (LFailed location (exc_args e)) ;;
            sys_exit 1
       else print LAuthRequired).

(** [actions = list(client.list_actions(options=options))] and the report
    on them. *)
Definition show_actions : M St unit :=
  actions <- call (ListActions options) (list_actions T options) ;;
  if (length actions =? 0)%nat
  then print LZeroActions
  else print (LFoundActions (length actions)) ;;
       for_in actions (fun a => print (LAction a)).

(** The [try] around the loop over [client.do_action(action, options=options)]. *)
Definition run_action : M St unit :=
  try_except
    (rows <- call (DoAction action options) (do_action T action options) ;;
     for_stream rows (fun row => print (LRow (body row))))
    (fun e =>
       print (LWarn (exc_str e)) ;;
       sys_exit 1).

(** The body of [for chunk, metadata in result]. *)
Definition show_chunk (item : flight_stream_chunk) : M St unit :=
  let chunk := data item in
  let metadata := app_metadata item in
  print (LChunk chunk metadata) ;;
  for_stream chunk (fun col => print (LCol col)).

(** The body of [for flight in flights]. *)
Definition fetch_flight (flight : flight_info) : M St unit :=
  ep <- index0 (endpoints flight) ;;
  let ticket := ticket ep in
  print (LFlight (command (descriptor flight)) ticket) ;;
  result <- call (DoGet ticket options) (do_get T ticket options) ;;
  for_stream result show_chunk.

(** [flights = list(client.list_flights(options=options))] and the fetch of
    each flight. *)
Definition show_flights : M St unit :=
  flights <- call (ListFlights options) (list_flights T options) ;;
  if (length flights =? 0)%nat
  then print LZeroFlights
  else print (LFoundFlights (length flights)) ;;
       for_in flights fetch_flight.

(** The module body, top to bottom.  [pa.enable_signal_handlers(True)] and
    the unused [schema] have no part in what follows. *)
Definition script : M St unit :=
  print (LTrying location) ;;
  probe ;;
  show_actions ;;
  run_action ;;
  show_flights.

(** Running the script on a fresh client. *)
Definition main : outcome St unit := script client.

End Client.

Arguments show_chunk {St} item.

(** The exit status of the interpreter, as a shell reports it.  An
    uncaught [Exception] gives 1; on an uncaught [KeyboardInterrupt] the
    interpreter ends itself by SIGINT, which a shell reports as 128 + 2. *)
Definition exit_status {A} (c : completion A) : Z :=
  match c with
  | Normal _ => 0
  | Raised e => if is_Exception (exc_class e) then 1 else 130
  | Exited code => code
  end.

(** ** Reading a trace *)

Fixpoint calls (t : list event) : list rpc :=
  match t with
  | [] => []
  | Call c :: rest => c :: calls rest
  | Print _ :: rest => calls rest
  end.

Fixpoint prints (t : list event) : list line :=
  match t with
  | [] => []
  | Call _ :: rest => prints rest
  | Print l :: rest => l :: prints rest
  end.

(** The four operations of the chain and the fetch. *)
Inductive op : Type := Probe | ListA | Invoke | ListF | Fetch.

Definition op_of (c : rpc) : op :=
  match c with
  | WaitForAvailable _ => Probe
  | ListActions _ => ListA
  | DoAction _ _ => Invoke
  | ListFlights _ => ListF
  | DoGet _ _ => Fetch
  end.

Definition op_eq_dec (a b : op) : {a = b} + {a <> b}.
Proof. decide equality. Defined.

(** The call options of a call that takes some. *)
Definition options_of (c : rpc) : option call_options :=
  match c with
  | WaitForAvailable _ => None
  | ListActions o => Some o
  | DoAction _ o => Some o
  | ListFlights o => Some o
  | DoGet _ o => Some o
  end.

(** The tickets redeemed, in order. *)
Fixpoint fetched (cs : list rpc) : list ticket_t :=
  match cs with
  | [] => []
  | DoGet t _ :: rest => t :: fetched rest
  | _ :: rest => fetched rest
  end.

(** The ticket of [flight.endpoints[0]], when there is one. *)
Definition first_ticket (f : flight_info) : option ticket_t :=
  match endpoints f with
  | ep :: _ => Some (ticket ep)
  | [] => None
  end.

(** The records printed by the loop over [do_action], in order. *)
Fixpoint rows_of (t : list event) : list bytes :=
  match t with
  | [] => []
  | Print (LRow b) :: rest => b :: rows_of rest
  | _ :: rest => rows_of rest
  end.

(** The items an iteration produces before it ends. *)
Fixpoint items {A} (it : stream A) : list A :=
  match it with
  | SStop => []
  | SYield x rest => x :: items rest
  | SFail _ => []
  end.

(** How an iteration ends: exhausted, or by the exception it raises. *)
Fixpoint ending {A} (it : stream A) : completion unit :=
  match it with
  | SStop => Normal tt
  | SYield _ rest => ending rest
  | SFail e => Raised e
  end.

(** A call that raises at once and a call whose iterator raises on the
    first [next] are the same to a [for] loop over the call. *)
Definition received {A} (r : reply (stream A)) : stream A :=
  match r with
  | Returns it => it
  | Raises e => SFail e
  end.

(** How the loop over a reader of chunks ends: at the first chunk whose
    columns cannot be iterated to the end, or as the reader ends. *)
Fixpoint chunks_ending (it : stream flight_stream_chunk) : completion unit :=
  match it with
  | SStop => Normal tt
  | SYield item rest =>
      match ending (data item) with
      | Normal _ => chunks_ending rest
      | other => other
      end
  | SFail e => Raised e
  end.

(** The lines of the loop over a reader of chunks. *)
Fixpoint chunk_lines (it : stream flight_stream_chunk) : list event :=
  match it with
  | SStop => []
  | SYield item rest =>
      Print (LChunk (data item) (app_metadata item))
        :: map (fun col => Print (LCol col)) (items (data item))
        ++ match ending (data item) with
           | Normal _ => chunk_lines rest
           | _ => []
           end
  | SFail _ => []
  end.

(** The step of the chain an event belongs to. *)
Definition stage (ev : event) : nat :=
  match ev with
  | Call c =>
      match op_of c with
      | Probe => 0
      | ListA => 1
      | Invoke => 2
      | ListF => 3
      | Fetch => 3
      end
  | Print l =>
      match l with
      | LTrying _ | LConnected | LFailed _ _ | LAuthRequired => 0
      | LZeroActions | LFoundActions _ | LAction _ => 1
      | LRow _ | LWarn _ => 2
      | LZeroFlights | LFoundFlights _ | LFlight _ _ | LChunk _ _ | LCol _ => 3
      end
  end%nat.

(** The calls of a run that meets no failure and fetches the tickets [ts]. *)
Definition chain (ts : list ticket_t) : list rpc :=
  [WaitForAvailable 5; ListActions options; DoAction action options;
   ListFlights options] ++ map (fun t => DoGet t options) ts.

(** [a] is an initial segment of [b]. *)
Definition initial_segment {A} (a b : list A) : Prop :=
  exists rest, b = a ++ rest.

(** The lines that report the listed actions. *)
Definition action_lines (actions : list action_type) : list event :=
  match actions with
  | [] => [Print LZeroActions]
  | _ => Print (LFoundActions (length actions))
           :: map (fun a => Print (LAction a)) actions
  end.

Definition row_lines (rows : list flight_result) : list event :=
  map (fun row => Print (LRow (body row))) rows.

(** Events are in order when none belongs to an earlier step than an event
    before it. *)
Definition in_order (t : list event) : Prop :=
  StronglySorted (fun a b => (stage a <= stage b)%nat) t.

Section Prefixes.

Variable St : Type.
Variable T : transport St.

(** The script up to the end of each step, and what is left after the
    listing of the actions. *)
Definition upto_probe : M St unit :=
  print (LTrying location) ;; probe T.

Definition upto_actions : M St unit :=
  upto_probe ;; show_actions T.

Definition upto_action : M St unit :=
  upto_actions ;; run_action T.

Definition after_actions : M St unit :=
  run_action T ;; show_flights T.

End Prefixes.

(** ** Servers to run the script against *)

Record scenario : Type := mkScenario {
  on_wait : reply unit;
  on_list_actions : reply (list action_type);
  on_do_action : reply (stream flight_result);
  on_list_flights : reply (list flight_info);
  on_do_get : ticket_t -> reply (stream flight_stream_chunk)
}.

(** A server that answers as the scenario says and counts the calls. *)
Definition scripted (sc : scenario) : transport nat :=
  mkTransport
    (fun _ => 0%nat)
    (fun _ n => (on_wait sc, S n))
    (fun _ n => (on_list_actions sc, S n))
    (fun _ _ n => (on_do_action sc, S n))
    (fun _ n => (on_list_flights sc, S n))
    (fun t _ n => (on_do_get sc t, S n)).

Definition unauthenticated : exn :=
  mkExn FlightUnauthenticatedError ["no credentials"] "no credentials".

Definition unavailable : exn :=
  mkExn FlightUnavailableError ["connection refused"] "connection refused".

Definition server_error : exn :=
  mkExn FlightServerError ["query failed"] "query failed".

Definition interrupt : exn :=
  mkExn KeyboardInterrupt [] "".

Definition row (s : string) : flight_result := mkResult (bytes_lit s).

Definition ticket_a : ticket_t := mkTicket (bytes_lit "job-a").
Definition ticket_b : ticket_t := mkTicket (bytes_lit "job-b").
Definition ticket_c : ticket_t := mkTicket (bytes_lit "job-c").

Definition flight_ab : flight_info :=
  mkFlightInfo (mkDescriptor (bytes_lit "cmd-1"))
    [mkEndpoint ticket_a ["grpc://h1"]; mkEndpoint ticket_b ["grpc://h2"]].

Definition flight_c : flight_info :=
  mkFlightInfo (mkDescriptor (bytes_lit "cmd-2")) [mkEndpoint ticket_c []].

Definition flight_bare : flight_info :=
  mkFlightInfo (mkDescriptor (bytes_lit "cmd-3")) [].

Definition one_chunk : stream flight_stream_chunk :=
  SYield (mkChunk (SYield "n: [1,2]" SStop) None) SStop.

(** [a == b] on tickets. *)
Definition same_ticket (a b : ticket_t) : bool :=
  if list_eq_dec N.eq_dec (map Byte.to_N (ticket_bytes a))
       (map Byte.to_N (ticket_bytes b))
  then true else false.

(** A reader that fails after its first chunk. *)
Definition broken_reader : stream flight_stream_chunk :=
  SYield (mkChunk (SYield "n: [1,2]" SStop) None) (SFail server_error).

Definition healthy : scenario :=
  mkScenario
    (Returns tt)
    (Returns [mkActionType "cypherRead" "run a read query"])
    (Returns (SYield (row "r1") (SYield (row "r2") SStop)))
    (Returns [flight_ab; flight_c])
    (fun _ => Returns one_chunk).

Definition with_wait (r : reply unit) (sc : scenario) : scenario :=
  mkScenario r (on_list_actions sc) (on_do_action sc) (on_list_flights sc)
    (on_do_get sc).

Definition with_actions (r : reply (list action_type)) (sc : scenario) : scenario :=
  mkScenario (on_wait sc) r (on_do_action sc) (on_list_flights sc)
    (on_do_get sc).

Definition with_action (r : reply (stream flight_result)) (sc : scenario) : scenario :=
  mkScenario (on_wait sc) (on_list_actions sc) r (on_list_flights sc)
    (on_do_get sc).

Definition with_flights (r : reply (list flight_info)) (sc : scenario) : scenario :=
  mkScenario (on_wait sc) (on_list_actions sc) (on_do_action sc) r
    (on_do_get sc).

Definition with_get (r : ticket_t -> reply (stream flight_stream_chunk))
  (sc : scenario) : scenario :=
  mkScenario (on_wait sc) (on_list_actions sc) (on_do_action sc)
    (on_list_flights sc) r.

Arguments options : simpl never.
Arguments action : simpl never.
Arguments location : simpl never.

(** * Facts *)

(** ** [b64encode] *)

Example b64_rfc_foobar :
  Base64.b64encode (bytes_lit "foobar") = bytes_lit "Zm9vYmFy".
Proof. reflexivity. Qed.

Example b64_rfc_fooba :
  Base64.b64encode (bytes_lit "fooba") = bytes_lit "Zm9vYmE=".
Proof. reflexivity. Qed.

Example b64_rfc_f :
  Base64.b64encode (bytes_lit "f") = bytes_lit "Zg==".
Proof. reflexivity. Qed.

Lemma list_ind3 (A : Type) (P : list A -> Prop) :
  P [] ->
  (forall x, P [x]) ->
  (forall x y, P [x; y]) ->
  (forall x y z rest, P rest -> P (x :: y :: z :: rest)) ->
  forall l, P l.
Proof.
  intros H0 H1 H2 H3.
  fix IH 1.
  intros [|x [|y [|z rest]]].
  - exact H0.
  - apply H1.
  - apply H2.
  - apply H3, IH.
Qed.

(** Every group of up to three bytes gives four characters. *)
Lemma b64encode_length (s : bytes) :
  Z.of_nat (length (Base64.b64encode s)) = 4 * ((Z.of_nat (length s) + 2) / 3).
Proof.
  induction s as [| x | x y | x y z rest IH] using list_ind3;
    try reflexivity.
  change (Base64.b64encode (x :: y :: z :: rest))
    with (let n := Z.lor (Z.lor (Z.shiftl (Base64.byte_val x) 16)
                                (Z.shiftl (Base64.byte_val y) 8))
                         (Base64.byte_val z) in
          Base64.sextet n 18 :: Base64.sextet n 12 :: Base64.sextet n 6
            :: Base64.sextet n 0 :: Base64.b64encode rest).
  cbv zeta. cbn [length].
  rewrite !Nat2Z.inj_succ, IH.
  replace (Z.succ (Z.succ (Z.succ (Z.of_nat (length rest)))) + 2)
    with (Z.of_nat (length rest) + 2 + 1 * 3) by lia.
  rewrite Z.div_add by lia. lia.
Qed.

(** ** The statement monad *)

Section MonadFacts.

Variable St : Type.

Lemma trace_bind A B (m : M St A) (k : A -> M St B) s :
  trace (bind m k s) =
  trace (m s) ++ match result (m s) with
                 | Normal a => trace (k a (conn (m s)))
                 | _ => []
                 end.
Proof.
  unfold bind. destruct (result (m s)); cbn; auto using app_nil_r.
Qed.

Lemma result_bind A B (m : M St A) (k : A -> M St B) s :
  result (bind m k s) =
  match result (m s) with
  | Normal a => result (k a (conn (m s)))
  | Raised e => Raised e
  | Exited c => Exited c
  end.
Proof. unfold bind. destruct (result (m s)); reflexivity. Qed.

Lemma conn_bind A B (m : M St A) (k : A -> M St B) s :
  conn (bind m k s) =
  match result (m s) with
  | Normal a => conn (k a (conn (m s)))
  | _ => conn (m s)
  end.
Proof. unfold bind. destruct (result (m s)); reflexivity. Qed.

Lemma bind_assoc A B C (m : M St A) (k : A -> M St B) (h : B -> M St C) s :
  bind (bind m k) h s = bind m (fun a => bind (k a) h) s.
Proof.
  unfold bind.
  destruct (m s) as [[a|e|c] s1 t1]; cbn; try reflexivity.
  destruct (k a s1) as [[b|e|c] s2 t2]; cbn; try reflexivity.
  rewrite app_assoc. reflexivity.
Qed.

(** A loop that only prints runs to the end of its list. *)
Lemma for_in_print A (f : A -> line) (l : list A) (s : St) :
  for_in l (fun x => print (f x)) s =
  mkOutcome (Normal tt) s (map (fun x => Print (f x)) l).
Proof.
  induction l as [|x l IH]; [reflexivity|].
  cbn [for_in map]. unfold bind at 1. cbn. rewrite IH. reflexivity.
Qed.

(** A loop that only prints, over an iteration: it prints the items and
    ends as the iteration does. *)
Lemma for_stream_print A (f : A -> line) (it : stream A) (s : St) :
  for_stream it (fun x => print (f x)) s =
  mkOutcome (ending it) s (map (fun x => Print (f x)) (items it)).
Proof.
  induction it as [|x it IH|e]; try reflexivity.
  cbn [for_stream items ending map]. unfold bind at 1. cbn.
  rewrite IH. reflexivity.
Qed.

Lemma ending_not_exited A (it : stream A) c : ending it <> Exited c.
Proof. induction it; cbn; congruence. Qed.

Lemma chunks_ending_not_exited it c : chunks_ending it <> Exited c.
Proof.
  induction it as [|x it IH|e]; cbn; try congruence.
  destruct (ending (data x)) eqn:E; try congruence.
  exfalso. exact (ending_not_exited _ E).
Qed.

End MonadFacts.

(** ** The steps of the script, reply by reply *)

Section Steps.

Variable St : Type.
Variable T : transport St.

Lemma probe_run s :
  probe T s =
  let (r, s') := wait_for_available T 5 s in
  match r with
  | Returns _ =>
      mkOutcome (Normal tt) s' [Call (WaitForAvailable 5); Print LConnected]
  | Raises e =>
      if is_Exception (exc_class e)
      then if type_is (exc_class e) FlightUnauthenticatedError
           then mkOutcome (Normal tt) s'
                  [Call (WaitForAvailable 5); Print LAuthRequired]
           else mkOutcome (Exited 1) s'
                  [Call (WaitForAvailable 5);
                   Print (LFailed location (exc_args e))]
      else mkOutcome (Raised e) s' [Call (WaitForAvailable 5)]
  end.
Proof.
  unfold probe, try_except, bind, call.
  destruct (wait_for_available T 5 s) as [[[]|e] s']; cbn; [reflexivity|].
  destruct (is_Exception (exc_class e)); [|reflexivity].
  destruct (type_is (exc_class e) FlightUnauthenticatedError); reflexivity.
Qed.

Lemma show_actions_run s :
  show_actions T s =
  let (r, s') := list_actions T options s in
  match r with
  | Returns actions =>
      mkOutcome (Normal tt) s' (Call (ListActions options) :: action_lines actions)
  | Raises e => mkOutcome (Raised e) s' [Call (ListActions options)]
  end.
Proof.
  unfold show_actions, bind, call.
  destruct (list_actions T options s) as [[actions|e] s'];
    cbn [result conn trace]; [|reflexivity].
  destruct actions as [|a actions]; [reflexivity|].
  cbn [length Nat.eqb print result conn trace].
  rewrite for_in_print. reflexivity.
Qed.

Lemma run_action_run s :
  run_action T s =
  let (r, s') := do_action T action options s in
  let seen := Call (DoAction action options) :: row_lines (items (received r)) in
  match ending (received r) with
  | Normal _ => mkOutcome (Normal tt) s' seen
  | Raised e =>
      if is_Exception (exc_class e)
      then mkOutcome (Exited 1) s' (seen ++ [Print (LWarn (exc_str e))])
      else mkOutcome (Raised e) s' seen
  | Exited c => mkOutcome (Exited c) s' seen
  end.
Proof.
  unfold run_action, try_except, bind, call.
  destruct (do_action T action options s) as [[rows|e] s'];
    cbn [result conn trace received items ending row_lines map].
  - rewrite for_stream_print. cbn [result conn trace]. unfold row_lines.
    destruct (ending rows) as [[]|e|c]; cbn; [reflexivity| |reflexivity].
    destruct (is_Exception (exc_class e)); reflexivity.
  - destruct (is_Exception (exc_class e)); reflexivity.
Qed.

Lemma show_chunk_run (item : flight_stream_chunk) (s : St) :
  show_chunk item s =
  mkOutcome (ending (data item)) s
    (Print (LChunk (data item) (app_metadata item))
       :: map (fun col => Print (LCol col)) (items (data item))).
Proof.
  unfold show_chunk, bind. cbn [print result conn trace].
  rewrite for_stream_print. cbn [result conn trace].
  destruct (ending (data item)); reflexivity.
Qed.

Lemma show_chunks_run (it : stream flight_stream_chunk) (s : St) :
  for_stream it show_chunk s = mkOutcome (chunks_ending it) s (chunk_lines it).
Proof.
  induction it as [|item it IH|e]; try reflexivity.
  cbn [for_stream chunks_ending chunk_lines].
  unfold bind. rewrite show_chunk_run. cbn [result conn trace].
  destruct (ending (data item)) as [[]|e|c]; rewrite ?IH, ?app_nil_r; reflexivity.
Qed.

Lemma fetch_flight_run (f : flight_info) (s : St) :
  fetch_flight T f s =
  match endpoints f with
  | [] =>
      mkOutcome
        (Raised (mkExn IndexError ["list index out of range"] "list index out of range"))
        s []
  | ep :: _ =>
      let (r, s') := do_get T (ticket ep) options s in
      mkOutcome (chunks_ending (received r)) s'
        (Print (LFlight (command (descriptor f)) (ticket ep))
           :: Call (DoGet (ticket ep) options) :: chunk_lines (received r))
  end.
Proof.
  unfold fetch_flight, bind, call.
  destruct (endpoints f) as [|ep eps]; [reflexivity|].
  cbn [index0 ret print result conn trace app].
  destruct (do_get T (ticket ep) options s) as [[it|e] s'];
    cbn [result conn trace received app]; [|reflexivity].
  rewrite show_chunks_run. reflexivity.
Qed.

Lemma show_flights_run s :
  show_flights T s =
  let (r, s') := list_flights T options s in
  match r with
  | Returns [] =>
      mkOutcome (Normal tt) s' [Call (ListFlights options); Print LZeroFlights]
  | Returns flights =>
      let o := for_in flights (fetch_flight T) s' in
      mkOutcome (result o) (conn o)
        (Call (ListFlights options) :: Print (LFoundFlights (length flights))
           :: trace o)
  | Raises e => mkOutcome (Raised e) s' [Call (ListFlights options)]
  end.
Proof.
  unfold show_flights, bind, call.
  destruct (list_flights T options s) as [[flights|e] s']; cbn; [|reflexivity].
  destruct flights as [|f flights]; reflexivity.
Qed.

End Steps.

(** ** Calls and lines of a trace *)

Lemma calls_app (t1 t2 : list event) : calls (t1 ++ t2) = calls t1 ++ calls t2.
Proof.
  induction t1 as [|[c|l] t1 IH]; cbn; rewrite ?IH; reflexivity.
Qed.

Lemma calls_prints A (f : A -> line) (l : list A) :
  calls (map (fun x => Print (f x)) l) = [].
Proof. induction l; cbn; auto. Qed.

Lemma calls_action_lines actions : calls (action_lines actions) = [].
Proof.
  destruct actions; [reflexivity|].
  unfold action_lines. cbn [calls]. apply calls_prints.
Qed.

Lemma calls_row_lines rows : calls (row_lines rows) = [].
Proof. apply calls_prints. Qed.

Lemma calls_chunk_lines it : calls (chunk_lines it) = [].
Proof.
  induction it as [|item it IH|e]; cbn [chunk_lines calls]; auto.
  rewrite calls_app, calls_prints.
  destruct (ending (data item)); auto.
Qed.

Lemma fetched_gets (ts : list ticket_t) :
  fetched (map (fun t => DoGet t options) ts) = ts.
Proof. induction ts; cbn; congruence. Qed.

Lemma stage_prints A (f : A -> line) (n : nat) (l : list A) :
  (forall x, stage (Print (f x)) = n) ->
  Forall (fun ev => stage ev = n) (map (fun x => Print (f x)) l).
Proof.
  intros H. induction l; cbn; constructor; auto.
Qed.

Lemma stage_chunk_lines it : Forall (fun ev => stage ev = 3%nat) (chunk_lines it).
Proof.
  induction it as [|item it IH|e]; cbn [chunk_lines]; auto.
  constructor; [reflexivity|].
  apply Forall_app. split.
  - apply stage_prints. reflexivity.
  - destruct (ending (data item)); auto.
Qed.

Lemma in_order_same (n : nat) (t : list event) :
  Forall (fun ev => stage ev = n) t -> in_order t.
Proof.
  induction 1 as [|ev t Hev Ht IH]; constructor; auto.
  eapply Forall_impl; [|exact Ht]. cbn. intros. lia.
Qed.

Lemma in_order_app (n : nat) (t1 t2 : list event) :
  in_order t1 -> in_order t2 ->
  Forall (fun ev => (stage ev <= n)%nat) t1 ->
  Forall (fun ev => (n <= stage ev)%nat) t2 ->
  in_order (t1 ++ t2).
Proof.
  intros H1 H2 B1 B2. induction H1 as [|ev t1 Ht1 IH Hev]; cbn; auto.
  inversion B1; subst.
  constructor.
  - apply IH. assumption.
  - apply Forall_app. split; [assumption|].
    eapply Forall_impl; [|exact B2]. cbn. intros. lia.
Qed.

Lemma initial_segment_refl A (l : list A) : initial_segment l l.
Proof. exists []. symmetry. apply app_nil_r. Qed.

Lemma initial_segment_in A (a b : list A) x :
  initial_segment a b -> In x a -> In x b.
Proof. intros [r ->] H. apply in_or_app. auto. Qed.

(** ** What each step calls and prints *)

Section StepFacts.

Variable St : Type.
Variable T : transport St.

Lemma probe_calls s : calls (trace (probe T s)) = [WaitForAvailable 5].
Proof.
  rewrite probe_run.
  destruct (wait_for_available T 5 s) as [[[]|e] s']; [reflexivity|].
  destruct (is_Exception (exc_class e)); [|reflexivity].
  destruct (type_is (exc_class e) FlightUnauthenticatedError); reflexivity.
Qed.

Lemma probe_stage s : Forall (fun ev => stage ev = 0%nat) (trace (probe T s)).
Proof.
  rewrite probe_run.
  destruct (wait_for_available T 5 s) as [[[]|e] s'];
    [repeat constructor|].
  destruct (is_Exception (exc_class e)); [|repeat constructor].
  destruct (type_is (exc_class e) FlightUnauthenticatedError);
    repeat constructor.
Qed.

Lemma show_actions_calls s :
  calls (trace (show_actions T s)) = [ListActions options].
Proof.
  rewrite show_actions_run.
  destruct (list_actions T options s) as [[actions|e] s']; [|reflexivity].
  cbn [trace calls]. rewrite calls_action_lines. reflexivity.
Qed.

Lemma stage_action_lines actions :
  Forall (fun ev => stage ev = 1%nat) (action_lines actions).
Proof.
  destruct actions as [|a actions]; [repeat constructor|].
  unfold action_lines. constructor; [reflexivity|].
  apply stage_prints. reflexivity.
Qed.

Lemma show_actions_stage s :
  Forall (fun ev => stage ev = 1%nat) (trace (show_actions T s)).
Proof.
  rewrite show_actions_run.
  destruct (list_actions T options s) as [[actions|e] s'];
    [|repeat constructor].
  cbn [trace]. constructor; [reflexivity|]. apply stage_action_lines.
Qed.

Lemma run_action_calls s :
  calls (trace (run_action T s)) = [DoAction action options].
Proof.
  rewrite run_action_run.
  destruct (do_action T action options s) as [r s']. cbv zeta.
  destruct (ending (received r)) as [u|e|c]; cbn [trace calls];
    rewrite ?calls_row_lines; try reflexivity.
  destruct (is_Exception (exc_class e)); cbn [trace];
    rewrite ?calls_app; cbn [calls app]; rewrite calls_row_lines; reflexivity.
Qed.

Lemma run_action_stage s :
  Forall (fun ev => stage ev = 2%nat) (trace (run_action T s)).
Proof.
  assert (R : forall rows, Forall (fun ev => stage ev = 2%nat) (row_lines rows))
    by (intros; apply stage_prints; reflexivity).
  rewrite run_action_run.
  destruct (do_action T action options s) as [r s']. cbv zeta.
  destruct (ending (received r)) as [u|e|c]; cbn [trace];
    try (constructor; [reflexivity|apply R]).
  destruct (is_Exception (exc_class e)); cbn [trace];
    try (constructor; [reflexivity|apply R]).
  change (Forall (fun ev => stage ev = 2%nat)
            ((Call (DoAction action options) :: row_lines (items (received r)))
               ++ [Print (LWarn (exc_str e))])).
  apply Forall_app. split; [|repeat constructor].
  constructor; [reflexivity|apply R].
Qed.

(** The action step ends the run or goes on; it never lets an exception
    of class [Exception] through. *)
Lemma run_action_catches s e :
  result (run_action T s) = Raised e -> is_Exception (exc_class e) = false.
Proof.
  rewrite run_action_run.
  destruct (do_action T action options s) as [r s']. cbv zeta.
  destruct (ending (received r)) as [u|e'|c]; cbn [result]; try discriminate.
  destruct (is_Exception (exc_class e')) eqn:E; cbn [result]; try discriminate.
  intros [= ->]. exact E.
Qed.

Lemma fetch_flight_calls f s :
  calls (trace (fetch_flight T f s)) =
  match first_ticket f with
  | Some t => [DoGet t options]
  | None => []
  end.
Proof.
  rewrite fetch_flight_run. unfold first_ticket.
  destruct (endpoints f) as [|ep eps]; [reflexivity|].
  destruct (do_get T (ticket ep) options s) as [r s'].
  cbn [trace calls]. rewrite calls_chunk_lines. reflexivity.
Qed.

Lemma fetch_flight_stage f s :
  Forall (fun ev => stage ev = 3%nat) (trace (fetch_flight T f s)).
Proof.
  rewrite fetch_flight_run.
  destruct (endpoints f) as [|ep eps]; [constructor|].
  destruct (do_get T (ticket ep) options s) as [r s'].
  cbn [trace]. repeat (constructor; [reflexivity|]). apply stage_chunk_lines.
Qed.

Lemma fetch_flight_no_exit f s c : result (fetch_flight T f s) <> Exited c.
Proof.
  rewrite fetch_flight_run.
  destruct (endpoints f) as [|ep eps]; [discriminate|].
  destruct (do_get T (ticket ep) options s) as [r s'].
  apply chunks_ending_not_exited.
Qed.

Lemma fetch_flight_bare f s :
  first_ticket f = None ->
  exists e, result (fetch_flight T f s) = Raised e /\ exc_class e = IndexError.
Proof.
  rewrite fetch_flight_run. unfold first_ticket.
  destruct (endpoints f) as [|ep eps]; [|discriminate].
  intros _. eexists. split; reflexivity.
Qed.

(** The loop over the flights: it fetches the flights of an initial
    segment of the list, one ticket each, and goes through the whole list
    unless a flight raises. *)
Lemma fetch_loop flights s :
  let o := for_in flights (fetch_flight T) s in
  exists done rest ts,
    flights = done ++ rest /\
    map first_ticket done = map Some ts /\
    calls (trace o) = map (fun t => DoGet t options) ts /\
    (result o = Normal tt -> rest = []) /\
    (rest <> [] -> exists e, result o = Raised e).
Proof.
  revert s. induction flights as [|f flights IH]; intros s o.
  - exists [], [], []. repeat split; auto. congruence.
  - subst o. cbn [for_in].
    rewrite trace_bind, result_bind, calls_app, fetch_flight_calls.
    pose proof (@fetch_flight_no_exit f s) as NoExit.
    destruct (result (fetch_flight T f s)) as [[]|e|c] eqn:R.
    + destruct (first_ticket f) as [t|] eqn:Ft.
      * destruct (IH (conn (fetch_flight T f s)))
          as (done & rest & ts & -> & Hts & Hcalls & Hall & Hstop).
        exists (f :: done), rest, (t :: ts).
        cbn [map app]. rewrite Ft, Hts, Hcalls. repeat split; auto.
      * destruct (fetch_flight_bare f s Ft) as (e & He & _). congruence.
    + destruct (first_ticket f) as [t|] eqn:Ft.
      * exists [f], flights, [t]. cbn [map app]. rewrite Ft.
        repeat split; try discriminate. eauto.
      * exists [], (f :: flights), []. repeat split; try discriminate. eauto.
    + destruct (NoExit c eq_refl).
Qed.

Lemma fetch_loop_stage flights s :
  Forall (fun ev => stage ev = 3%nat) (trace (for_in flights (fetch_flight T) s)).
Proof.
  revert s. induction flights as [|f flights IH]; intros s; [constructor|].
  cbn [for_in]. rewrite trace_bind. apply Forall_app. split.
  - apply fetch_flight_stage.
  - destruct (result (fetch_flight T f s)); auto.
Qed.

Lemma fetch_loop_no_exit flights s c :
  result (for_in flights (fetch_flight T) s) <> Exited c.
Proof.
  revert s. induction flights as [|f flights IH]; intros s; [discriminate|].
  cbn [for_in]. rewrite result_bind.
  pose proof (@fetch_flight_no_exit f s) as NoExit.
  destruct (result (fetch_flight T f s)); auto; discriminate.
Qed.

End StepFacts.

(** ** The run, step after step *)

Section RunFacts.

Variable St : Type.
Variable T : transport St.

Lemma script_upto_probe s :
  script T s = (upto_probe T ;; show_actions T ;; after_actions T) s.
Proof. unfold upto_probe. rewrite bind_assoc. reflexivity. Qed.

Lemma script_upto_actions s :
  script T s = (upto_actions T ;; after_actions T) s.
Proof.
  unfold upto_actions. rewrite bind_assoc. apply script_upto_probe.
Qed.

Lemma script_upto_action s :
  script T s = (upto_action T ;; show_flights T) s.
Proof.
  unfold upto_action. rewrite bind_assoc. apply script_upto_actions.
Qed.

Lemma upto_probe_run s :
  upto_probe T s =
  mkOutcome (result (probe T s)) (conn (probe T s))
    (Print (LTrying location) :: trace (probe T s)).
Proof.
  unfold upto_probe, bind. cbn [print result conn trace app].
  destruct (result (probe T s)); reflexivity.
Qed.

Lemma upto_probe_calls s :
  calls (trace (upto_probe T s)) = [WaitForAvailable 5].
Proof. rewrite upto_probe_run. cbn [trace calls]. apply probe_calls. Qed.

Lemma upto_probe_stage s :
  Forall (fun ev => stage ev = 0%nat) (trace (upto_probe T s)).
Proof.
  rewrite upto_probe_run. cbn [trace].
  constructor; [reflexivity|apply probe_stage].
Qed.

Lemma upto_actions_calls s :
  calls (trace (upto_actions T s)) =
  WaitForAvailable 5 ::
    match result (upto_probe T s) with
    | Normal _ => [ListActions options]
    | _ => []
    end.
Proof.
  unfold upto_actions. rewrite trace_bind, calls_app, upto_probe_calls.
  destruct (result (upto_probe T s)); cbn [app calls]; auto.
  rewrite show_actions_calls. reflexivity.
Qed.

Lemma upto_action_calls s :
  calls (trace (upto_action T s)) =
  calls (trace (upto_actions T s)) ++
    match result (upto_actions T s) with
    | Normal _ => [DoAction action options]
    | _ => []
    end.
Proof.
  unfold upto_action. rewrite trace_bind, calls_app.
  destruct (result (upto_actions T s)); cbn [app calls]; auto.
  rewrite run_action_calls. reflexivity.
Qed.

(** A step is reached only when the steps before it ended normally. *)
Lemma upto_actions_normal s u :
  result (upto_actions T s) = Normal u -> result (upto_probe T s) = Normal tt.
Proof.
  unfold upto_actions. rewrite result_bind.
  destruct (result (upto_probe T s)) as [[]|e|c]; auto; discriminate.
Qed.

Lemma upto_action_normal s u :
  result (upto_action T s) = Normal u -> result (upto_actions T s) = Normal tt.
Proof.
  unfold upto_action. rewrite result_bind.
  destruct (result (upto_actions T s)) as [[]|e|c]; auto; discriminate.
Qed.

Lemma upto_action_calls_normal s u :
  result (upto_action T s) = Normal u ->
  calls (trace (upto_action T s)) =
  [WaitForAvailable 5; ListActions options; DoAction action options].
Proof.
  intros H. pose proof (upto_action_normal _ H) as H1.
  pose proof (upto_actions_normal _ H1) as H2.
  rewrite upto_action_calls, upto_actions_calls, H1, H2. reflexivity.
Qed.

Lemma show_flights_calls s :
  exists ts,
    calls (trace (show_flights T s)) =
    ListFlights options :: map (fun t => DoGet t options) ts.
Proof.
  rewrite show_flights_run.
  destruct (list_flights T options s) as [[flights|e] s'];
    [|exists []; reflexivity].
  destruct flights as [|f flights]; [exists []; reflexivity|].
  destruct (fetch_loop T (f :: flights) s')
    as (done & rest & ts & _ & _ & Hcalls & _).
  exists ts. cbn [trace calls]. cbv zeta in Hcalls. rewrite Hcalls. reflexivity.
Qed.

Lemma show_flights_stage s :
  Forall (fun ev => stage ev = 3%nat) (trace (show_flights T s)).
Proof.
  rewrite show_flights_run.
  destruct (list_flights T options s) as [[flights|e] s'];
    [|repeat constructor].
  destruct flights as [|f flights]; [repeat constructor|].
  cbn [trace]. repeat (constructor; [reflexivity|]). apply fetch_loop_stage.
Qed.

(** The flights step has no handler and no exit of its own. *)
Lemma show_flights_no_exit s c : result (show_flights T s) <> Exited c.
Proof.
  rewrite show_flights_run.
  destruct (list_flights T options s) as [[flights|e] s']; [|discriminate].
  destruct flights as [|f flights]; [discriminate|].
  apply fetch_loop_no_exit.
Qed.

(** A run that stopped after one, two or three calls: what is left of the
    chain is what was not called. *)
Ltac stopped_early :=
  repeat match goal with
         | |- context [match result ?o with _ => _ end] =>
             let R := fresh "R" in destruct (result o) eqn:R
         end;
  try (exfalso;
       match goal with
       | H : result (upto_actions _ _) = Normal _ |- _ =>
           apply upto_actions_normal in H; congruence
       end);
  first [ exists [ListFlights options]; reflexivity
        | exists [DoAction action options; ListFlights options]; reflexivity
        | exists [ListActions options; DoAction action options;
                  ListFlights options]; reflexivity ].

(** The calls of a run are the beginning of the chain. *)
Lemma script_calls s :
  exists ts, initial_segment (calls (trace (script T s))) (chain ts).
Proof.
  rewrite script_upto_action, trace_bind, calls_app, upto_action_calls,
    upto_actions_calls.
  destruct (result (upto_action T s)) as [u|e|c] eqn:R3.
  - pose proof (upto_action_normal _ R3) as R2.
    pose proof (upto_actions_normal _ R2) as R1.
    rewrite R2, R1.
    destruct (show_flights_calls (conn (upto_action T s))) as [ts ->].
    exists ts. apply initial_segment_refl.
  - exists []. rewrite app_nil_r. stopped_early.
  - exists []. rewrite app_nil_r. stopped_early.
Qed.

End RunFacts.

Section OrderFacts.

Variable St : Type.
Variable T : transport St.

Lemma stage_below (n m : nat) (t : list event) :
  (n <= m)%nat ->
  Forall (fun ev => stage ev = n) t -> Forall (fun ev => (stage ev <= m)%nat) t.
Proof.
  intros Hn H. eapply Forall_impl; [|exact H]. cbn. intros ev ->. exact Hn.
Qed.

Lemma stage_above (n m : nat) (t : list event) :
  (m <= n)%nat ->
  Forall (fun ev => stage ev = n) t -> Forall (fun ev => (m <= stage ev)%nat) t.
Proof.
  intros Hn H. eapply Forall_impl; [|exact H]. cbn. intros ev ->. exact Hn.
Qed.

Lemma after_actions_stage s :
  Forall (fun ev => (2 <= stage ev)%nat) (trace (after_actions T s)).
Proof.
  unfold after_actions. rewrite trace_bind. apply Forall_app. split.
  - apply stage_above with (n := 2%nat); [lia|apply run_action_stage].
  - destruct (result (run_action T s)); auto.
    apply stage_above with (n := 3%nat); [lia|apply show_flights_stage].
Qed.

(** Whatever follows the probe belongs to a later step. *)
Lemma later_stage s :
  Forall (fun ev => (1 <= stage ev)%nat)
    (trace ((show_actions T ;; after_actions T) s)).
Proof.
  rewrite trace_bind. apply Forall_app. split.
  - apply stage_above with (n := 1%nat); [lia|apply show_actions_stage].
  - destruct (result (show_actions T s)); auto.
    eapply Forall_impl; [|apply after_actions_stage]. cbn. intros. lia.
Qed.

Lemma upto_actions_order s :
  in_order (trace (upto_actions T s)) /\
  Forall (fun ev => (stage ev <= 1)%nat) (trace (upto_actions T s)).
Proof.
  unfold upto_actions. rewrite trace_bind.
  assert (H0 : Forall (fun ev => (stage ev <= 0)%nat) (trace (upto_probe T s)))
    by (apply stage_below with (n := 0%nat); [lia|apply upto_probe_stage]).
  assert (H1 : forall s', Forall (fun ev => stage ev = 1%nat)
                            (match result (upto_probe T s) with
                             | Normal _ => trace (show_actions T s')
                             | _ => []
                             end))
    by (intros; destruct (result (upto_probe T s)); auto using show_actions_stage).
  split.
  - apply in_order_app with (n := 0%nat); auto.
    + eapply in_order_same, upto_probe_stage.
    + eapply in_order_same, H1.
    + eapply stage_above with (n := 1%nat); [lia|apply H1].
  - apply Forall_app. split.
    + eapply Forall_impl; [|exact H0]. cbn. intros. lia.
    + eapply stage_below with (n := 1%nat); [lia|apply H1].
Qed.



End OrderFacts.

(** ** Runs against the test servers *)

Example healthy_run :
  result (main (scripted healthy)) = Normal tt /\
  calls (trace (main (scripted healthy))) = chain [ticket_a; ticket_c] /\
  prints (trace (main (scripted healthy))) =
    [LTrying location; LConnected;
     LFoundActions 1; LAction (mkActionType "cypherRead" "run a read query");
     LRow (bytes_lit "r1"); LRow (bytes_lit "r2");
     LFoundFlights 2;
     LFlight (bytes_lit "cmd-1") ticket_a;
     LChunk (SYield "n: [1,2]" SStop) None; LCol "n: [1,2]";
     LFlight (bytes_lit "cmd-2") ticket_c;
     LChunk (SYield "n: [1,2]" SStop) None; LCol "n: [1,2]"].
Proof. repeat split. Qed.

(** [KeyboardInterrupt] is not an [Exception]: the handler of the probe
    does not see it. *)
Example interrupted_probe :
  main (scripted (with_wait (Raises interrupt) healthy)) =
  mkOutcome (Raised interrupt) 1%nat
    [Print (LTrying location); Call (WaitForAvailable 5)].
Proof. reflexivity. Qed.

(** [FlightUnauthorizedError] is another class than
    [FlightUnauthenticatedError]: the probe fails on it. *)
Example unauthorized_probe :
  result (main (scripted
                  (with_wait (Raises (mkExn FlightUnauthorizedError ["denied"] "denied"))
                     healthy)))
  = Exited 1.
Proof. reflexivity. Qed.

(** * The claims *)

Lemma type_is_other (t : exc_type) :
  t <> FlightUnauthenticatedError -> type_is t FlightUnauthenticatedError = false.
Proof.
  intros H. unfold type_is.
  destruct (exc_type_eq_dec t FlightUnauthenticatedError); congruence.
Qed.

(** C1: a probe that fails with an authentication-required error counts
    as a successful probe.  The script reports "Server requires auth, but
    connection possible" (the AuthRequired status), the probe step ends
    normally, the run goes on to list the actions, and the failure line of
    a connectivity error is printed nowhere in the run. *)
Theorem auth_required_probe_continues St (T : transport St) (e : exn) (s' : St) :
  wait_for_available T 5 (client T) = (Raises e, s') ->
  exc_class e = FlightUnauthenticatedError ->
  upto_probe T (client T) =
    mkOutcome (Normal tt) s'
      [Print (LTrying location); Call (WaitForAvailable 5); Print LAuthRequired] /\
  (exists rest,
      trace (main T) =
      [Print (LTrying location); Call (WaitForAvailable 5); Print LAuthRequired;
       Call (ListActions options)] ++ rest) /\
  (forall args, ~ In (Print (LFailed location args)) (trace (main T))).
Proof.
  intros Hwait Hclass.
  assert (P : upto_probe T (client T) =
              mkOutcome (Normal tt) s'
                [Print (LTrying location); Call (WaitForAvailable 5);
                 Print LAuthRequired]).
  { rewrite upto_probe_run, probe_run, Hwait, Hclass. reflexivity. }
  assert (M : trace (main T) =
              [Print (LTrying location); Call (WaitForAvailable 5);
               Print LAuthRequired]
                ++ trace ((show_actions T ;; after_actions T) s')).
  { unfold main. rewrite script_upto_probe, trace_bind, P. reflexivity. }
  split; [exact P|]. split.
  - rewrite M, trace_bind, show_actions_run.
    destruct (list_actions T options s') as [[actions|e'] s1]; cbn [trace];
      eexists; cbn [app]; reflexivity.
  - intros args Hin. rewrite M in Hin. apply in_app_or in Hin.
    destruct Hin as [Hin|Hin].
    + cbn in Hin. intuition discriminate.
    + pose proof (later_stage T s') as L.
      rewrite Forall_forall in L. apply L in Hin. cbn in Hin. lia.
Qed.

Lemma auth_required_probe_continues_witness :
  upto_probe (scripted (with_wait (Raises unauthenticated) healthy)) 0%nat =
    mkOutcome (Normal tt) 1%nat
      [Print (LTrying location); Call (WaitForAvailable 5); Print LAuthRequired] /\
  (exists rest,
      trace (main (scripted (with_wait (Raises unauthenticated) healthy))) =
      [Print (LTrying location); Call (WaitForAvailable 5); Print LAuthRequired;
       Call (ListActions options)] ++ rest) /\
  (forall args,
      ~ In (Print (LFailed location args))
          (trace (main (scripted (with_wait (Raises unauthenticated) healthy))))).
Proof.
  apply (@auth_required_probe_continues nat
           (scripted (with_wait (Raises unauthenticated) healthy))
           unauthenticated 1%nat); reflexivity.
Defined.

(** The run of a probe that fails for good. *)
Lemma probe_failure_run St (T : transport St) (e : exn) (s' : St) :
  wait_for_available T 5 (client T) = (Raises e, s') ->
  is_Exception (exc_class e) = true ->
  exc_class e <> FlightUnauthenticatedError ->
  main T =
    mkOutcome (Exited 1) s'
      [Print (LTrying location); Call (WaitForAvailable 5);
       Print (LFailed location (exc_args e))].
Proof.
  intros Hwait Hexc Hclass.
  unfold main. rewrite script_upto_probe. unfold bind at 1.
  rewrite upto_probe_run, probe_run, Hwait, Hexc, (type_is_other Hclass).
  reflexivity.
Qed.

(** C2: any other failure of the probe is fatal.  For an exception that
    is not the authentication-required error, the script prints the
    failure line with the location and the error's arguments and exits
    with status 1; the probe is the only call of the run, so no action is
    listed or invoked and no flight is listed or fetched. *)
Theorem probe_failure_is_fatal St (T : transport St) (e : exn) (s' : St) :
  wait_for_available T 5 (client T) = (Raises e, s') ->
  is_Exception (exc_class e) = true ->
  exc_class e <> FlightUnauthenticatedError ->
  main T =
    mkOutcome (Exited 1) s'
      [Print (LTrying location); Call (WaitForAvailable 5);
       Print (LFailed location (exc_args e))] /\
  calls (trace (main T)) = [WaitForAvailable 5] /\
  exit_status (result (main T)) = 1.
Proof.
  intros Hwait Hexc Hclass.
  rewrite (probe_failure_run T Hwait Hexc Hclass). repeat split.
Qed.

Lemma probe_failure_is_fatal_witness :
  main (scripted (with_wait (Raises unavailable) healthy)) =
    mkOutcome (Exited 1) 1%nat
      [Print (LTrying location); Call (WaitForAvailable 5);
       Print (LFailed location ["connection refused"])] /\
  calls (trace (main (scripted (with_wait (Raises unavailable) healthy)))) =
    [WaitForAvailable 5] /\
  exit_status (result (main (scripted (with_wait (Raises unavailable) healthy)))) = 1.
Proof.
  apply (@probe_failure_is_fatal nat
           (scripted (with_wait (Raises unavailable) healthy))
           unavailable 1%nat);
    [reflexivity | reflexivity | discriminate].
Defined.

Lemma in_chain (ts : list ticket_t) (c : rpc) :
  In c (chain ts) -> op_of c = Probe \/ options_of c = Some options.
Proof.
  unfold chain. intros H. apply in_app_or in H. destruct H as [H|H].
  - cbn in H. intuition (subst; cbn; auto).
  - apply in_map_iff in H. destruct H as (t & <- & _). right. reflexivity.
Qed.

(** C3: every call after the probe carries the one header
    [authorization: Basic <base64(username:password)>].  Each call of a
    run other than [wait_for_available] is made with the same options,
    a single header whose value is [Basic bmVvNGo6cGFzc3dvcmQ=], that is
    [b'Basic '] followed by the base64 encoding of [neo4j:password]. *)
Theorem every_call_carries_the_credential St (T : transport St) (c : rpc) :
  In c (calls (trace (main T))) ->
  op_of c <> Probe ->
  options_of c =
    Some [(bytes_lit "authorization", bytes_lit "Basic bmVvNGo6cGFzc3dvcmQ=")] /\
  bytes_lit "Basic bmVvNGo6cGFzc3dvcmQ=" =
    bytes_lit "Basic "
      ++ Base64.b64encode (encode_utf8 (username ++ ":" ++ password)%string).
Proof.
  intros Hin Hop. split; [|reflexivity].
  destruct (script_calls T (client T)) as [ts Hseg].
  apply (@initial_segment_in _ _ _ c Hseg), in_chain in Hin.
  destruct Hin as [Hin|Hin]; [contradiction|].
  rewrite Hin. reflexivity.
Qed.

Lemma every_call_carries_the_credential_witness :
  options_of (DoGet ticket_c options) =
    Some [(bytes_lit "authorization", bytes_lit "Basic bmVvNGo6cGFzc3dvcmQ=")] /\
  bytes_lit "Basic bmVvNGo6cGFzc3dvcmQ=" =
    bytes_lit "Basic "
      ++ Base64.b64encode (encode_utf8 (username ++ ":" ++ password)%string).
Proof.
  apply (@every_call_carries_the_credential nat (scripted healthy)
           (DoGet ticket_c options)).
  - cbn. do 5 right. left. reflexivity.
  - discriminate.
Defined.

Lemma count_gets (ts : list ticket_t) (o : op) :
  o <> Fetch ->
  count_occ op_eq_dec (map op_of (map (fun t => DoGet t options) ts)) o = 0%nat.
Proof.
  intros H. induction ts as [|t ts IH]; [reflexivity|].
  cbn [map op_of]. rewrite count_occ_cons_neq; auto.
Qed.

Lemma count_chain (ts : list ticket_t) (o : op) :
  o <> Fetch -> (count_occ op_eq_dec (map op_of (chain ts)) o <= 1)%nat.
Proof.
  intros H. unfold chain. rewrite map_app, count_occ_app, (@count_gets ts o H).
  destruct o; cbn; lia || congruence.
Qed.

Lemma count_segment (cs : list rpc) (ts : list ticket_t) (o : op) :
  initial_segment cs (chain ts) -> o <> Fetch ->
  (count_occ op_eq_dec (map op_of cs) o <= 1)%nat.
Proof.
  intros [rest Hrest] H. pose proof (@count_chain ts o H) as C.
  rewrite Hrest, map_app, count_occ_app in C. lia.
Qed.


Lemma fetched_app (a b : list rpc) : fetched (a ++ b) = fetched a ++ fetched b.
Proof.
  induction a as [|c a IH]; [reflexivity|].
  destruct c; cbn; rewrite ?IH; reflexivity.
Qed.

(** When the action step is over, the run is the flights step. *)
Lemma main_after_action St (T : transport St) :
  result (upto_action T (client T)) = Normal tt ->
  main T =
  mkOutcome
    (result (show_flights T (conn (upto_action T (client T)))))
    (conn (show_flights T (conn (upto_action T (client T)))))
    (trace (upto_action T (client T))
       ++ trace (show_flights T (conn (upto_action T (client T))))).
Proof.
  intros H. unfold main. rewrite script_upto_action. unfold bind.
  rewrite H. reflexivity.
Qed.

Lemma bind_ext St A B (m : M St A) (k k' : A -> M St B) (s : St) :
  (forall a s1, k a s1 = k' a s1) -> bind m k s = bind m k' s.
Proof.
  intros H. unfold bind. destruct (result (m s)); rewrite ?H; reflexivity.
Qed.

Lemma ret_bind St B (k : unit -> M St B) (s : St) : bind (ret tt) k s = k tt s.
Proof. unfold bind. cbn. destruct (k tt s). reflexivity. Qed.

Lemma for_in_app St A (a b : list A) (loop_body : A -> M St unit) (s : St) :
  for_in (a ++ b) loop_body s =
  (for_in a loop_body ;; for_in b loop_body) s.
Proof.
  revert s. induction a as [|x a IH]; intros s.
  - cbn [app for_in]. rewrite ret_bind. reflexivity.
  - cbn [app for_in]. rewrite bind_assoc. apply bind_ext. intros _ s1. apply IH.
Qed.

(** A flight that raises ends the loop over the flights by its exception. *)
Lemma fetch_loop_raises St (T : transport St) done f rest (e : exn) (s : St) :
  result (for_in done (fetch_flight T) s) = Normal tt ->
  result (fetch_flight T f (conn (for_in done (fetch_flight T) s))) = Raised e ->
  result (for_in (done ++ f :: rest) (fetch_flight T) s) = Raised e.
Proof.
  intros Hdone Hf. rewrite for_in_app, result_bind, Hdone.
  cbn [for_in]. rewrite result_bind, Hf. reflexivity.
Qed.

(** Once the flights are listed, what the run fetches and how it ends is
    what the loop over the flights fetches and how it ends. *)
Lemma main_is_fetch_loop St (T : transport St) (flights : list flight_info) (s' : St) :
  result (upto_action T (client T)) = Normal tt ->
  list_flights T options (conn (upto_action T (client T))) = (Returns flights, s') ->
  result (main T) = result (for_in flights (fetch_flight T) s') /\
  fetched (calls (trace (main T))) =
    fetched (calls (trace (for_in flights (fetch_flight T) s'))).
Proof.
  intros Hreach Hlist.
  rewrite (main_after_action T Hreach). cbn [result trace].
  rewrite calls_app, fetched_app, (upto_action_calls_normal T _ Hreach).
  rewrite show_flights_run, Hlist.
  destruct flights as [|f flights]; split; reflexivity.
Qed.

Lemma for_in_cons_normal St A (x : A) (l : list A) (loop_body : A -> M St unit)
    (s : St) :
  result (loop_body x s) = Normal tt ->
  result (for_in (x :: l) loop_body s) = result (for_in l loop_body (conn (loop_body x s))) /\
  conn (for_in (x :: l) loop_body s) = conn (for_in l loop_body (conn (loop_body x s))).
Proof.
  intros H. cbn [for_in]. rewrite result_bind, conn_bind, H. split; reflexivity.
Qed.

(** The loop over the flights, flight by flight: it ends normally with
    every flight fetched, or at the first flight without endpoints, or at
    the first flight whose fetch fails, and then by that very failure. *)
Lemma fetch_loop_outcome St (T : transport St) (flights : list flight_info) (s : St) :
  exists done rest ts,
    flights = done ++ rest /\
    map first_ticket done = map Some ts /\
    calls (trace (for_in flights (fetch_flight T) s)) =
      map (fun t => DoGet t options) ts /\
    ((result (for_in flights (fetch_flight T) s) = Normal tt /\ rest = []) \/
     (exists f rest',
         rest = f :: rest' /\ endpoints f = [] /\
         result (for_in done (fetch_flight T) s) = Normal tt /\
         result (for_in flights (fetch_flight T) s) =
           Raised (mkExn IndexError ["list index out of range"]
                     "list index out of range")) \/
     (exists done' f ep eps r s2 e,
         done = done' ++ [f] /\ endpoints f = ep :: eps /\
         result (for_in done' (fetch_flight T) s) = Normal tt /\
         do_get T (ticket ep) options (conn (for_in done' (fetch_flight T) s)) = (r, s2) /\
         chunks_ending (received r) = Raised e /\
         result (for_in flights (fetch_flight T) s) = Raised e)).
Proof.
  revert s. induction flights as [|f flights IH]; intros s.
  - exists [], [], []. repeat split. left. split; reflexivity.
  - pose proof (fetch_flight_run T f s) as Run.
    pose proof (fetch_flight_calls T f s) as Cf. unfold first_ticket in Cf.
    destruct (endpoints f) as [|ep eps] eqn:Hep.
    + exists [], (f :: flights), []. repeat split.
      * cbn [for_in]. rewrite trace_bind, Run. cbn [result trace]. reflexivity.
      * right. left. exists f, flights. repeat split; auto.
        cbn [for_in]. rewrite result_bind, Run. reflexivity.
    + destruct (do_get T (ticket ep) options s) as [r s1] eqn:Hget.
      destruct (chunks_ending (received r)) as [[]|e|c] eqn:Hend.
      * assert (Rf : result (fetch_flight T f s) = Normal tt)
          by (rewrite Run; reflexivity).
        assert (Sf : conn (fetch_flight T f s) = s1) by (rewrite Run; reflexivity).
        destruct (IH s1) as (done & rest & ts & -> & Hts & Hcalls & Hout).
        assert (Step : forall l,
                   result (for_in (f :: l) (fetch_flight T) s) =
                     result (for_in l (fetch_flight T) s1) /\
                   conn (for_in (f :: l) (fetch_flight T) s) =
                     conn (for_in l (fetch_flight T) s1)).
        { intros l. rewrite <- Sf. apply for_in_cons_normal. exact Rf. }
        exists (f :: done), rest, (ticket ep :: ts). repeat split.
        -- cbn [map]. unfold first_ticket at 1. rewrite Hep, Hts. reflexivity.
        -- cbn [for_in]. rewrite trace_bind, calls_app, Cf, Rf, Sf, Hcalls.
           reflexivity.
        -- destruct Hout as [[Hn ->]|[(f0 & rest' & -> & Hf0 & Hd & Hr)
                                     |(done' & f0 & ep0 & eps0 & r0 & s2 & e0 & -> & Hf0 & Hd & Hg & He & Hr)]].
           ++ left. split; [|reflexivity]. rewrite (proj1 (Step _)). exact Hn.
           ++ right. left. exists f0, rest'. repeat split; auto.
              ** rewrite (proj1 (Step _)). exact Hd.
              ** rewrite (proj1 (Step _)). exact Hr.
           ++ right. right.
              exists (f :: done'), f0, ep0, eps0, r0, s2, e0. repeat split; auto.
              ** rewrite (proj1 (Step _)). exact Hd.
              ** rewrite (proj2 (Step _)). exact Hg.
              ** rewrite (proj1 (Step _)). exact Hr.
      * exists [f], flights, [ticket ep]. repeat split.
        -- cbn [map]. unfold first_ticket. rewrite Hep. reflexivity.
        -- cbn [for_in]. rewrite trace_bind, calls_app, Cf, Run.
           cbn [result]. apply app_nil_r.
        -- right. right. exists [], f, ep, eps, r, s1, e. repeat split; auto.
           cbn [for_in]. rewrite result_bind, Run. reflexivity.
      * destruct (chunks_ending_not_exited _ Hend).
Qed.

(** A flight that raises after flights that went through: the loop ends
    by its exception, and what it called is what it called up to there. *)
Lemma fetch_loop_stops St (T : transport St) done f rest (e : exn) (s : St) :
  result (for_in done (fetch_flight T) s) = Normal tt ->
  result (fetch_flight T f (conn (for_in done (fetch_flight T) s))) = Raised e ->
  result (for_in (done ++ f :: rest) (fetch_flight T) s) = Raised e /\
  exists ts,
    map first_ticket done = map Some ts /\
    calls (trace (for_in (done ++ f :: rest) (fetch_flight T) s)) =
      map (fun t => DoGet t options) ts
        ++ calls (trace (fetch_flight T f (conn (for_in done (fetch_flight T) s)))).
Proof.
  intros Hdone Hf. split; [apply fetch_loop_raises; assumption|].
  destruct (fetch_loop T done s) as (d & r & ts & Hsplit & Hts & Hcalls & Hall & _).
  cbv zeta in Hcalls, Hall. specialize (Hall Hdone). subst r.
  rewrite app_nil_r in Hsplit. subst d.
  exists ts. split; [exact Hts|].
  rewrite for_in_app, trace_bind, Hdone, calls_app, Hcalls. cbn [for_in].
  rewrite trace_bind, Hf, app_nil_r. reflexivity.
Qed.

(** C4, as the script has it: the tickets redeemed are, in order and one
    for each, the tickets of [endpoints[0]] of the flights of an initial
    segment of the list that [list_flights] returned, and no other
    ticket.  The segment is the whole list when the run ends normally; it
    stops short only when a flight raises, and the run then ends by that
    exception.  The exception is never of the script's own making: it is
    the [IndexError] of [endpoints[0]] on the first flight left, which has
    no endpoint, or it is the failure of the [do_get] of the last flight
    fetched (raised by the call or while its chunks and columns are
    iterated).  Conversely a flight whose fetch fails, or which has no
    endpoint, ends the run there: the flights after it are not fetched.
    The flights step never exits. *)
Theorem fetches_follow_first_endpoints St (T : transport St)
    (flights : list flight_info) (s' : St) :
  result (upto_action T (client T)) = Normal tt ->
  list_flights T options (conn (upto_action T (client T))) = (Returns flights, s') ->
  exists done rest,
    flights = done ++ rest /\
    map Some (fetched (calls (trace (main T)))) = map first_ticket done /\
    (result (main T) = Normal tt -> rest = []) /\
    (rest <> [] -> exists e, result (main T) = Raised e) /\
    (forall e,
        result (main T) = Raised e ->
        (exists f rest',
            rest = f :: rest' /\ endpoints f = [] /\
            result (for_in done (fetch_flight T) s') = Normal tt /\
            e = mkExn IndexError ["list index out of range"] "list index out of range") \/
        (exists done' f ep eps r s2,
            done = done' ++ [f] /\ endpoints f = ep :: eps /\
            result (for_in done' (fetch_flight T) s') = Normal tt /\
            do_get T (ticket ep) options (conn (for_in done' (fetch_flight T) s')) = (r, s2) /\
            chunks_ending (received r) = Raised e)) /\
    (forall c, result (main T) <> Exited c) /\
    (forall done' f rest' ep eps r s2 e,
        flights = done' ++ f :: rest' ->
        result (for_in done' (fetch_flight T) s') = Normal tt ->
        endpoints f = ep :: eps ->
        do_get T (ticket ep) options (conn (for_in done' (fetch_flight T) s')) = (r, s2) ->
        chunks_ending (received r) = Raised e ->
        result (main T) = Raised e /\
        map Some (fetched (calls (trace (main T)))) = map first_ticket (done' ++ [f])) /\
    (forall done' f rest',
        flights = done' ++ f :: rest' ->
        result (for_in done' (fetch_flight T) s') = Normal tt ->
        endpoints f = [] ->
        result (main T) =
          Raised (mkExn IndexError ["list index out of range"] "list index out of range") /\
        map Some (fetched (calls (trace (main T)))) = map first_ticket done').
Proof.
  intros Hreach Hlist.
  destruct (@main_is_fetch_loop _ T flights s' Hreach Hlist) as [-> ->].
  destruct (fetch_loop_outcome T flights s')
    as (done & rest & ts & Hsplit & Hts & Hcalls & Hout).
  exists done, rest.
  split; [exact Hsplit|].
  split; [rewrite Hcalls, fetched_gets; symmetry; exact Hts|].
  split; [|split; [|split; [|split; [|split]]]].
  - intros Hn.
    destruct Hout as [[_ ->]|[(f & rest' & _ & _ & _ & Hr)
                             |(d & f & ep & eps & r & s2 & e & _ & _ & _ & _ & _ & Hr)]];
      [reflexivity|congruence..].
  - intros Hrest.
    destruct Hout as [[_ ->]|[(f & rest' & _ & _ & _ & Hr)
                             |(d & f & ep & eps & r & s2 & e & _ & _ & _ & _ & _ & Hr)]];
      [congruence|eauto..].
  - intros e He.
    destruct Hout as [[Hn _]|[(f & rest' & -> & Hf & Hd & Hr)
                             |(d & f & ep & eps & r & s2 & e0 & -> & Hf & Hd & Hg & Hend & Hr)]].
    + congruence.
    + left. exists f, rest'. repeat split; auto. congruence.
    + right. exists d, f, ep, eps, r, s2. repeat split; auto. congruence.
  - intros c. apply fetch_loop_no_exit.
  - intros done' f rest' ep eps r s2 e -> Hd Hep Hget Hend.
    assert (Hf : result (fetch_flight T f (conn (for_in done' (fetch_flight T) s'))) = Raised e)
      by (rewrite fetch_flight_run, Hep, Hget; exact Hend).
    destruct (@fetch_loop_stops _ T done' f rest' _ s' Hd Hf) as [Hr (ts' & Hts' & Hc')].
    split; [exact Hr|].
    rewrite Hc', fetch_flight_calls. unfold first_ticket at 1. rewrite Hep.
    rewrite fetched_app, fetched_gets, !map_app, Hts'. cbn [fetched map].
    unfold first_ticket. rewrite Hep. reflexivity.
  - intros done' f rest' -> Hd Hep.
    assert (Hf : result (fetch_flight T f (conn (for_in done' (fetch_flight T) s'))) =
                 Raised (mkExn IndexError ["list index out of range"]
                           "list index out of range"))
      by (rewrite fetch_flight_run, Hep; reflexivity).
    destruct (@fetch_loop_stops _ T done' f rest' _ s' Hd Hf) as [Hr (ts' & Hts' & Hc')].
    split; [exact Hr|].
    rewrite Hc', fetch_flight_calls. unfold first_ticket at 1. rewrite Hep.
    rewrite app_nil_r, fetched_gets. symmetry. exact Hts'.
Qed.

Lemma fetches_follow_first_endpoints_witness :
  (exists done rest,
      [flight_ab; flight_c] = done ++ rest /\
      map Some (fetched (calls (trace (main (scripted healthy))))) =
        map first_ticket done /\
      (result (main (scripted healthy)) = Normal tt -> rest = []) /\
      (rest <> [] -> exists e, result (main (scripted healthy)) = Raised e)) /\
  (result (main (scripted
                   (with_get (fun t => if same_ticket t ticket_c
                                       then Returns broken_reader
                                       else Returns one_chunk) healthy)))
     = Raised server_error /\
   map Some (fetched (calls (trace (main (scripted
                   (with_get (fun t => if same_ticket t ticket_c
                                       then Returns broken_reader
                                       else Returns one_chunk) healthy))))))
     = map first_ticket ([flight_ab] ++ [flight_c])) /\
  (result (main (scripted (with_flights (Returns [flight_ab; flight_bare; flight_c]) healthy)))
     = Raised (mkExn IndexError ["list index out of range"] "list index out of range") /\
   map Some (fetched (calls (trace (main (scripted
                   (with_flights (Returns [flight_ab; flight_bare; flight_c]) healthy))))))
     = map first_ticket [flight_ab]).
Proof.
  split; [|split].
  - destruct (@fetches_follow_first_endpoints nat (scripted healthy)
                [flight_ab; flight_c] 4%nat eq_refl eq_refl)
      as (done & rest & H1 & H2 & H3 & H4 & _).
    exists done, rest. auto.
  - destruct (@fetches_follow_first_endpoints nat
                (scripted (with_get (fun t => if same_ticket t ticket_c
                                              then Returns broken_reader
                                              else Returns one_chunk) healthy))
                [flight_ab; flight_c] 4%nat eq_refl eq_refl)
      as (done & rest & _ & _ & _ & _ & _ & _ & H7 & _).
    apply (H7 [flight_ab] flight_c [] (mkEndpoint ticket_c []) []
              (Returns broken_reader) 6%nat server_error); reflexivity.
  - destruct (@fetches_follow_first_endpoints nat
                (scripted (with_flights (Returns [flight_ab; flight_bare; flight_c]) healthy))
                [flight_ab; flight_bare; flight_c] 4%nat eq_refl eq_refl)
      as (done & rest & _ & _ & _ & _ & _ & _ & _ & H8).
    apply (H8 [flight_ab] flight_bare [flight_c]); reflexivity.
Defined.

(** C4 as the claim has it fails: both flights below have endpoints and
    are returned by [list_flights], the fetch of the first one raises, and
    the second one is never fetched. *)
Lemma one_fetch_per_flight_counterexample :
  result (upto_action (scripted (with_get (fun _ => Raises server_error) healthy))
            (client (scripted (with_get (fun _ => Raises server_error) healthy))))
    = Normal tt /\
  list_flights (scripted (with_get (fun _ => Raises server_error) healthy)) options
    (conn (upto_action (scripted (with_get (fun _ => Raises server_error) healthy))
             (client (scripted (with_get (fun _ => Raises server_error) healthy)))))
    = (Returns [flight_ab; flight_c], 4%nat) /\
  fetched (calls (trace (main (scripted (with_get (fun _ => Raises server_error) healthy)))))
    = [ticket_a] /\
  map Some (fetched (calls (trace (main (scripted (with_get (fun _ => Raises server_error) healthy))))))
    <> map first_ticket [flight_ab; flight_c].
Proof.
  repeat split; try reflexivity. discriminate.
Qed.

(** A flight without endpoints makes [flight.endpoints[0]] raise: nothing
    is fetched for it, nor for the flights after it. *)
Example flight_without_endpoints :
  fetched (calls (trace (main (scripted (with_flights (Returns [flight_bare; flight_c]) healthy)))))
    = [] /\
  exists e,
    result (main (scripted (with_flights (Returns [flight_bare; flight_c]) healthy)))
      = Raised e /\
    exc_class e = IndexError.
Proof.
  split; [reflexivity|]. eexists. split; reflexivity.
Qed.

(** When the listing of the actions is over, the run is what follows it. *)
Lemma main_after_actions St (T : transport St) :
  result (upto_actions T (client T)) = Normal tt ->
  main T =
  mkOutcome
    (result (after_actions T (conn (upto_actions T (client T)))))
    (conn (after_actions T (conn (upto_actions T (client T)))))
    (trace (upto_actions T (client T))
       ++ trace (after_actions T (conn (upto_actions T (client T))))).
Proof.
  intros H. unfold main. rewrite script_upto_actions. unfold bind.
  rewrite H. reflexivity.
Qed.

(** The run of an action that fails. *)
Lemma action_failure_run St (T : transport St)
    (r : reply (stream flight_result)) (e : exn) (s' : St) :
  result (upto_actions T (client T)) = Normal tt ->
  do_action T action options (conn (upto_actions T (client T))) = (r, s') ->
  ending (received r) = Raised e ->
  is_Exception (exc_class e) = true ->
  main T =
    mkOutcome (Exited 1) s'
      (trace (upto_actions T (client T))
         ++ Call (DoAction action options) :: row_lines (items (received r))
         ++ [Print (LWarn (exc_str e))]).
Proof.
  intros Hreach Hcall Hend Hexc.
  rewrite (main_after_actions T Hreach). unfold after_actions, bind.
  rewrite run_action_run, Hcall. cbv zeta. rewrite Hend, Hexc. reflexivity.
Qed.

(** C5: a failure of the action, at the call or in the middle of the
    stream, is fatal.  When [do_action] raises, or the iteration over its
    results raises after some rows, the rows received so far have been
    printed, the line with the message of the error ([str(e)]) is printed,
    and the run ends with exit status 1; the calls of the run stop at
    [do_action], so no flight is listed or fetched. *)
Theorem action_failure_is_fatal St (T : transport St)
    (r : reply (stream flight_result)) (e : exn) (s' : St) :
  result (upto_actions T (client T)) = Normal tt ->
  do_action T action options (conn (upto_actions T (client T))) = (r, s') ->
  ending (received r) = Raised e ->
  is_Exception (exc_class e) = true ->
  main T =
    mkOutcome (Exited 1) s'
      (trace (upto_actions T (client T))
         ++ Call (DoAction action options) :: row_lines (items (received r))
         ++ [Print (LWarn (exc_str e))]) /\
  calls (trace (main T)) =
    [WaitForAvailable 5; ListActions options; DoAction action options] /\
  exit_status (result (main T)) = 1.
Proof.
  intros Hreach Hcall Hend Hexc.
  rewrite (action_failure_run T Hreach Hcall Hend Hexc).
  cbn [result trace exit_status]. repeat split.
  rewrite calls_app, upto_actions_calls, (upto_actions_normal T _ Hreach).
  cbn [calls app]. rewrite calls_app, calls_row_lines. reflexivity.
Qed.

Lemma action_failure_is_fatal_witness :
  main (scripted (with_action (Returns (SYield (row "r1") (SFail server_error))) healthy)) =
    mkOutcome (Exited 1) 3%nat
      ([Print (LTrying location); Call (WaitForAvailable 5); Print LConnected;
        Call (ListActions options); Print (LFoundActions 1);
        Print (LAction (mkActionType "cypherRead" "run a read query"))]
         ++ Call (DoAction action options) :: row_lines [row "r1"]
         ++ [Print (LWarn "query failed")]) /\
  calls (trace (main (scripted (with_action (Returns (SYield (row "r1") (SFail server_error))) healthy)))) =
    [WaitForAvailable 5; ListActions options; DoAction action options] /\
  exit_status (result (main (scripted (with_action (Returns (SYield (row "r1") (SFail server_error))) healthy)))) = 1.
Proof.
  apply (@action_failure_is_fatal nat
           (scripted (with_action (Returns (SYield (row "r1") (SFail server_error))) healthy))
           (Returns (SYield (row "r1") (SFail server_error))) server_error 3%nat);
    reflexivity.
Defined.

(** The same when the call itself raises. *)
Example action_failure_at_start :
  result (main (scripted (with_action (Raises server_error) healthy))) = Exited 1 /\
  prints (trace (main (scripted (with_action (Raises server_error) healthy)))) =
    [LTrying location; LConnected; LFoundActions 1;
     LAction (mkActionType "cypherRead" "run a read query"); LWarn "query failed"].
Proof. split; reflexivity. Qed.

(** When the probe is over, the run is what follows it. *)
Lemma main_after_probe St (T : transport St) :
  result (upto_probe T (client T)) = Normal tt ->
  main T =
  mkOutcome
    (result ((show_actions T ;; after_actions T) (conn (upto_probe T (client T)))))
    (conn ((show_actions T ;; after_actions T) (conn (upto_probe T (client T)))))
    (trace (upto_probe T (client T))
       ++ trace ((show_actions T ;; after_actions T) (conn (upto_probe T (client T))))).
Proof.
  intros H. unfold main. rewrite script_upto_probe. unfold bind at 1.
  rewrite H. reflexivity.
Qed.

Lemma after_actions_starts St (T : transport St) (s : St) :
  exists rest, trace (after_actions T s) = Call (DoAction action options) :: rest.
Proof.
  unfold after_actions. rewrite trace_bind, run_action_run.
  destruct (do_action T action options s) as [r s1]. cbv zeta.
  destruct (ending (received r)) as [u|e|c]; cbn [trace app];
    try (eexists; reflexivity).
  destruct (is_Exception (exc_class e)); cbn [trace app]; eexists; reflexivity.
Qed.

(** C6: an empty listing is not an error.  When [list_actions] returns no
    action the script reports it, the step ends normally and the next
    event of the run is the call of [do_action]; when [list_flights]
    returns no flight the script reports it and the run ends normally
    with nothing fetched. *)
Theorem empty_listings_are_not_errors St (T : transport St) :
  (forall s',
      result (upto_probe T (client T)) = Normal tt ->
      list_actions T options (conn (upto_probe T (client T))) = (Returns [], s') ->
      upto_actions T (client T) =
        mkOutcome (Normal tt) s'
          (trace (upto_probe T (client T))
             ++ [Call (ListActions options); Print LZeroActions]) /\
      exists rest,
        trace (main T) =
        trace (upto_actions T (client T)) ++ Call (DoAction action options) :: rest) /\
  (forall s',
      result (upto_action T (client T)) = Normal tt ->
      list_flights T options (conn (upto_action T (client T))) = (Returns [], s') ->
      main T =
        mkOutcome (Normal tt) s'
          (trace (upto_action T (client T))
             ++ [Call (ListFlights options); Print LZeroFlights]) /\
      exit_status (result (main T)) = 0).
Proof.
  split.
  - intros s' Hreach Hlist.
    assert (U : upto_actions T (client T) =
                mkOutcome (Normal tt) s'
                  (trace (upto_probe T (client T))
                     ++ [Call (ListActions options); Print LZeroActions])).
    { unfold upto_actions, bind. rewrite Hreach, show_actions_run, Hlist.
      reflexivity. }
    split; [exact U|].
    assert (R : result (upto_actions T (client T)) = Normal tt)
      by (rewrite U; reflexivity).
    rewrite (main_after_actions T R). cbn [trace].
    replace (conn (upto_actions T (client T))) with s' by (rewrite U; reflexivity).
    destruct (after_actions_starts T s') as [rest ->]. exists rest. reflexivity.
  - intros s' Hreach Hlist.
    rewrite (main_after_action T Hreach), show_flights_run, Hlist.
    split; reflexivity.
Qed.

Lemma empty_listings_are_not_errors_witness :
  (upto_actions (scripted (with_actions (Returns []) (with_flights (Returns []) healthy))) 0%nat =
     mkOutcome (Normal tt) 2%nat
       ([Print (LTrying location); Call (WaitForAvailable 5); Print LConnected]
          ++ [Call (ListActions options); Print LZeroActions]) /\
   exists rest,
     trace (main (scripted (with_actions (Returns []) (with_flights (Returns []) healthy)))) =
     trace (upto_actions (scripted (with_actions (Returns []) (with_flights (Returns []) healthy))) 0%nat)
       ++ Call (DoAction action options) :: rest) /\
  (main (scripted (with_actions (Returns []) (with_flights (Returns []) healthy))) =
     mkOutcome (Normal tt) 4%nat
       (trace (upto_action (scripted (with_actions (Returns []) (with_flights (Returns []) healthy))) 0%nat)
          ++ [Call (ListFlights options); Print LZeroFlights]) /\
   exit_status (result (main (scripted (with_actions (Returns []) (with_flights (Returns []) healthy))))) = 0).
Proof.
  split.
  - apply (proj1 (@empty_listings_are_not_errors nat
             (scripted (with_actions (Returns []) (with_flights (Returns []) healthy))))
             2%nat); reflexivity.
  - apply (proj2 (@empty_listings_are_not_errors nat
             (scripted (with_actions (Returns []) (with_flights (Returns []) healthy))))
             4%nat); reflexivity.
Defined.

(** A failure of [list_actions] is not caught: the run ends by the
    exception, before the action is invoked. *)
Lemma listing_failure_propagates St (T : transport St) (e : exn) (s' : St) :
  result (upto_probe T (client T)) = Normal tt ->
  list_actions T options (conn (upto_probe T (client T))) = (Raises e, s') ->
  main T =
    mkOutcome (Raised e) s'
      (trace (upto_probe T (client T)) ++ [Call (ListActions options)]).
Proof.
  intros Hreach Hlist. rewrite (main_after_probe T Hreach). unfold bind.
  rewrite show_actions_run, Hlist. reflexivity.
Qed.

(** C10, as the script has it: the action is invoked whatever list
    [list_actions] returns.  For every list of actions returned, empty or
    not, the run consists of the probe, the listing with its report, and
    then a continuation that is a function of the connection alone, not
    of the list; that continuation begins with the call of [do_action] on
    [cypherRead] and the query. *)
Theorem invocation_ignores_listing St (T : transport St)
    (actions : list action_type) (s' : St) :
  result (upto_probe T (client T)) = Normal tt ->
  list_actions T options (conn (upto_probe T (client T))) = (Returns actions, s') ->
  main T =
    mkOutcome (result (after_actions T s')) (conn (after_actions T s'))
      (trace (upto_probe T (client T))
         ++ Call (ListActions options) :: action_lines actions
         ++ trace (after_actions T s')) /\
  (exists rest, trace (after_actions T s') = Call (DoAction action options) :: rest) /\
  fst action = "cypherRead".
Proof.
  intros Hreach Hlist. split; [|split; [apply after_actions_starts|reflexivity]].
  rewrite (main_after_probe T Hreach). unfold bind.
  rewrite show_actions_run, Hlist. cbn [result conn trace].
  rewrite <- app_comm_cons. reflexivity.
Qed.

Lemma invocation_ignores_listing_witness :
  main (scripted (with_actions (Returns []) healthy)) =
    mkOutcome
      (result (after_actions (scripted (with_actions (Returns []) healthy)) 2%nat))
      (conn (after_actions (scripted (with_actions (Returns []) healthy)) 2%nat))
      (trace (upto_probe (scripted (with_actions (Returns []) healthy)) 0%nat)
         ++ Call (ListActions options) :: action_lines []
         ++ trace (after_actions (scripted (with_actions (Returns []) healthy)) 2%nat)) /\
  (exists rest,
      trace (after_actions (scripted (with_actions (Returns []) healthy)) 2%nat) =
      Call (DoAction action options) :: rest) /\
  fst action = "cypherRead".
Proof.
  apply (@invocation_ignores_listing nat
           (scripted (with_actions (Returns []) healthy)) [] 2%nat); reflexivity.
Defined.

(** C10 as the claim has it fails for one outcome of [list_actions]: when
    the call raises, the action is not invoked at all. *)
Lemma invocation_after_failed_listing_counterexample :
  on_list_actions (with_actions (Raises server_error) healthy) = Raises server_error /\
  calls (trace (main (scripted (with_actions (Raises server_error) healthy)))) =
    [WaitForAvailable 5; ListActions options] /\
  ~ In (Call (DoAction action options))
       (trace (main (scripted (with_actions (Raises server_error) healthy)))) /\
  result (main (scripted (with_actions (Raises server_error) healthy))) =
    Raised server_error.
Proof.
  repeat split; try reflexivity.
  cbn. intuition discriminate.
Qed.

(** C9: failures are handled on one side only.  An error raised by the
    probe (other than the authentication-required one) or by the action
    is caught and turned into an exit with status 1.  An exception raised
    by [list_flights], by [do_get], or while the chunks of a flight are
    iterated is not caught: it ends the run as it is; the flights step
    never ends by an exit. *)
Theorem flight_failures_are_not_caught St (T : transport St) (e : exn) :
  (forall s',
      is_Exception (exc_class e) = true ->
      exc_class e <> FlightUnauthenticatedError ->
      wait_for_available T 5 (client T) = (Raises e, s') ->
      result (main T) = Exited 1) /\
  (forall r s',
      is_Exception (exc_class e) = true ->
      result (upto_actions T (client T)) = Normal tt ->
      do_action T action options (conn (upto_actions T (client T))) = (r, s') ->
      ending (received r) = Raised e ->
      result (main T) = Exited 1) /\
  (forall s',
      result (upto_action T (client T)) = Normal tt ->
      list_flights T options (conn (upto_action T (client T))) = (Raises e, s') ->
      result (main T) = Raised e) /\
  (forall done f rest ep eps r s1 s2,
      result (upto_action T (client T)) = Normal tt ->
      list_flights T options (conn (upto_action T (client T)))
        = (Returns (done ++ f :: rest), s1) ->
      result (for_in done (fetch_flight T) s1) = Normal tt ->
      endpoints f = ep :: eps ->
      do_get T (ticket ep) options (conn (for_in done (fetch_flight T) s1)) = (r, s2) ->
      chunks_ending (received r) = Raised e ->
      result (main T) = Raised e) /\
  (forall s c, result (show_flights T s) <> Exited c).
Proof.
  repeat split.
  - intros s' Hexc Hclass Hwait.
    rewrite (probe_failure_run T Hwait Hexc Hclass). reflexivity.
  - intros r s' Hexc Hreach Hcall Hend.
    rewrite (action_failure_run T Hreach Hcall Hend Hexc). reflexivity.
  - intros s' Hreach Hlist.
    rewrite (main_after_action T Hreach), show_flights_run, Hlist. reflexivity.
  - intros done f rest ep eps r s1 s2 Hreach Hlist Hdone Hep Hget Hend.
    rewrite (main_after_action T Hreach), show_flights_run, Hlist.
    assert (L : result (for_in (done ++ f :: rest) (fetch_flight T) s1) = Raised e).
    { apply fetch_loop_raises; [exact Hdone|].
      rewrite fetch_flight_run, Hep, Hget. exact Hend. }
    destruct (done ++ f :: rest) as [|f0 l] eqn:E.
    + destruct done; discriminate.
    + cbv zeta. cbn [result]. exact L.
  - intros s c. apply show_flights_no_exit.
Qed.

Lemma flight_failures_are_not_caught_witness :
  result (main (scripted (with_wait (Raises server_error) healthy))) = Exited 1 /\
  result (main (scripted (with_action (Raises server_error) healthy))) = Exited 1 /\
  result (main (scripted (with_flights (Raises server_error) healthy)))
    = Raised server_error /\
  result (main (scripted
                  (with_get (fun t => if same_ticket t ticket_c
                                      then Returns broken_reader
                                      else Returns one_chunk) healthy)))
    = Raised server_error.
Proof.
  split; [|split; [|split]].
  - apply (proj1 (@flight_failures_are_not_caught nat
             (scripted (with_wait (Raises server_error) healthy)) server_error)
             1%nat); [reflexivity | discriminate | reflexivity].
  - apply (proj1 (proj2 (@flight_failures_are_not_caught nat
             (scripted (with_action (Raises server_error) healthy)) server_error))
             (Raises server_error) 3%nat); reflexivity.
  - apply (proj1 (proj2 (proj2 (@flight_failures_are_not_caught nat
             (scripted (with_flights (Raises server_error) healthy)) server_error)))
             4%nat); reflexivity.
  - apply (proj1 (proj2 (proj2 (proj2 (@flight_failures_are_not_caught nat
             (scripted
                (with_get (fun t => if same_ticket t ticket_c
                                    then Returns broken_reader
                                    else Returns one_chunk) healthy))
             server_error))))
             [flight_ab] flight_c [] (mkEndpoint ticket_c []) []
             (Returns broken_reader) 4%nat 6%nat); reflexivity.
Defined.

Lemma rows_of_app (a b : list event) : rows_of (a ++ b) = rows_of a ++ rows_of b.
Proof.
  induction a as [|ev a IH]; [reflexivity|].
  destruct ev as [c|[]]; cbn; rewrite ?IH; reflexivity.
Qed.

Lemma rows_of_other (t : list event) :
  Forall (fun ev => stage ev <> 2%nat) t -> rows_of t = [].
Proof.
  induction 1 as [|ev t Hev Ht IH]; [reflexivity|].
  destruct ev as [c|[]]; cbn [rows_of]; auto.
  cbn in Hev. contradiction Hev. reflexivity.
Qed.

Lemma rows_of_row_lines (rows : list flight_result) :
  rows_of (row_lines rows) = map body rows.
Proof.
  unfold row_lines. induction rows as [|r rows IH]; [reflexivity|].
  cbn [map rows_of]. rewrite IH. reflexivity.
Qed.

Lemma run_action_rows St (T : transport St) (s : St) :
  rows_of (trace (run_action T s)) =
  map body (items (received (fst (do_action T action options s)))).
Proof.
  rewrite run_action_run.
  destruct (do_action T action options s) as [r s']. cbv zeta. cbn [fst].
  destruct (ending (received r)) as [u|e|c]; cbn [trace rows_of];
    try apply rows_of_row_lines.
  destruct (is_Exception (exc_class e)); cbn [trace];
    rewrite ?rows_of_app; cbn [rows_of];
    rewrite rows_of_row_lines, ?app_nil_r; reflexivity.
Qed.

(** C7, as the script has it: the run is against the endpoint
    ("192.168.1.42", 9999) with the credential ("neo4j", "password"), and
    it invokes the action ("cypherRead", "UNWIND range(1, 23) AS n RETURN
    n" in UTF-8).  The records printed are the bodies of the records the
    server streams in reply, in order and as raw bytes; the script neither
    counts nor decodes them. *)
Theorem scenario_of_the_script St (T : transport St)
    (r : reply (stream flight_result)) (s' : St) :
  result (upto_actions T (client T)) = Normal tt ->
  do_action T action options (conn (upto_actions T (client T))) = (r, s') ->
  client T = FlightClient T ("192.168.1.42", 9999) /\
  (username = "neo4j" /\ password = "password") /\
  options =
    [(bytes_lit "authorization",
      bytes_lit "Basic "
        ++ Base64.b64encode (encode_utf8 (username ++ ":" ++ password)%string))] /\
  action = ("cypherRead", encode_utf8 "UNWIND range(1, 23) AS n RETURN n") /\
  In (Call (DoAction action options)) (trace (main T)) /\
  rows_of (trace (main T)) = map body (items (received r)).
Proof.
  intros Hreach Hcall.
  do 4 (split; [repeat split; reflexivity|]).
  rewrite (main_after_actions T Hreach). cbn [trace]. split.
  - apply in_or_app. right.
    destruct (after_actions_starts T (conn (upto_actions T (client T))))
      as [rest ->]. left. reflexivity.
  - rewrite rows_of_app. unfold after_actions. rewrite trace_bind, rows_of_app.
    rewrite run_action_rows, Hcall. cbn [fst].
    rewrite (@rows_of_other (trace (upto_actions T (client T)))).
    + replace (rows_of _) with (@nil bytes); [apply app_nil_r|].
      symmetry. apply rows_of_other.
      destruct (result (run_action T (conn (upto_actions T (client T))))); auto.
      eapply Forall_impl; [|apply show_flights_stage]. cbn. intros ev ->.
      discriminate.
    + eapply Forall_impl; [|apply upto_actions_order]. cbn. intros. lia.
Qed.

Lemma scenario_of_the_script_witness :
  client (scripted healthy) = FlightClient (scripted healthy) ("192.168.1.42", 9999) /\
  (username = "neo4j" /\ password = "password") /\
  options =
    [(bytes_lit "authorization",
      bytes_lit "Basic "
        ++ Base64.b64encode (encode_utf8 (username ++ ":" ++ password)%string))] /\
  action = ("cypherRead", encode_utf8 "UNWIND range(1, 23) AS n RETURN n") /\
  In (Call (DoAction action options)) (trace (main (scripted healthy))) /\
  rows_of (trace (main (scripted healthy))) =
    map body (items (received (Returns (SYield (row "r1") (SYield (row "r2") SStop))))).
Proof.
  apply (@scenario_of_the_script nat (scripted healthy)
           (Returns (SYield (row "r1") (SYield (row "r2") SStop))) 3%nat);
    reflexivity.
Defined.

(** C7 as the claim has it fails: the script has another endpoint and
    another query than the scenario. *)
Lemma scenario_constants_counterexample :
  ~ (location = ("127.0.0.1", 9999) /\
     action = ("cypherRead", encode_utf8 "UNWIND range(1,3) AS n RETURN n")).
Proof.
  intros [Hloc _]. discriminate Hloc.
Qed.

Example scenario_query_differs :
  snd action <> encode_utf8 "UNWIND range(1,3) AS n RETURN n" /\
  fst location <> "127.0.0.1" /\ snd location = 9999.
Proof. repeat split; discriminate. Qed.

(** * Further properties of the script *)

(** ** How the handlers of the two [try] blocks behave *)

Lemma type_is_true (t : exc_type) :
  type_is t FlightUnauthenticatedError = true <-> t = FlightUnauthenticatedError.
Proof.
  unfold type_is.
  destruct (exc_type_eq_dec t FlightUnauthenticatedError); split;
    congruence.
Qed.

Lemma probe_normal St (T : transport St) (s : St) :
  result (probe T s) = Normal tt <->
  (exists s', wait_for_available T 5 s = (Returns tt, s')) \/
  (exists e s', wait_for_available T 5 s = (Raises e, s') /\
                exc_class e = FlightUnauthenticatedError).
Proof.
  rewrite probe_run.
  destruct (wait_for_available T 5 s) as [[[]|e] s'].
  - split; [intros _; left; eauto|reflexivity].
  - destruct (is_Exception (exc_class e)) eqn:E.
    + destruct (type_is (exc_class e) FlightUnauthenticatedError) eqn:Ty.
      * apply type_is_true in Ty.
        split; [intros _; right; eauto|reflexivity].
      * split; [discriminate|].
        intros [[s1 H]|(e1 & s1 & H & Hc)]; [discriminate|].
        injection H as <- <-. apply type_is_true in Hc. congruence.
    + split; [discriminate|].
      intros [[s1 H]|(e1 & s1 & H & Hc)]; [discriminate|].
      injection H as <- <-. rewrite Hc in E. discriminate.
Qed.

Lemma probe_raised St (T : transport St) (s : St) (e : exn) :
  result (probe T s) = Raised e -> is_Exception (exc_class e) = false.
Proof.
  rewrite probe_run.
  destruct (wait_for_available T 5 s) as [[[]|e'] s']; [discriminate|].
  destruct (is_Exception (exc_class e')) eqn:E.
  - destruct (type_is (exc_class e') FlightUnauthenticatedError); discriminate.
  - intros [= ->]. exact E.
Qed.

Lemma probe_exited St (T : transport St) (s : St) (c : Z) :
  result (probe T s) = Exited c ->
  c = 1 /\
  exists args,
    trace (probe T s) = [Call (WaitForAvailable 5); Print (LFailed location args)].
Proof.
  rewrite probe_run.
  destruct (wait_for_available T 5 s) as [[[]|e] s']; [discriminate|].
  destruct (is_Exception (exc_class e)); [|discriminate].
  destruct (type_is (exc_class e) FlightUnauthenticatedError); [discriminate|].
  intros [= <-]. split; [reflexivity|]. eexists. reflexivity.
Qed.

Lemma show_actions_no_exit St (T : transport St) (s : St) (c : Z) :
  result (show_actions T s) <> Exited c.
Proof.
  rewrite show_actions_run.
  destruct (list_actions T options s) as [[actions|e] s']; discriminate.
Qed.

Lemma run_action_exited St (T : transport St) (s : St) (c : Z) :
  result (run_action T s) = Exited c ->
  c = 1 /\
  exists t msg, trace (run_action T s) = t ++ [Print (LWarn msg)].
Proof.
  rewrite run_action_run.
  destruct (do_action T action options s) as [r s']. cbv zeta.
  destruct (ending (received r)) as [u|e|c'] eqn:E.
  - discriminate.
  - destruct (is_Exception (exc_class e)); [|discriminate].
    intros [= <-]. split; [reflexivity|]. do 2 eexists.
    cbn [trace]. reflexivity.
  - destruct (ending_not_exited _ E).
Qed.

(** The run as far as the probe, when the probe does not let it go on. *)
Lemma main_stops_at_probe St (T : transport St) :
  result (upto_probe T (client T)) <> Normal tt ->
  trace (main T) = trace (upto_probe T (client T)) /\
  match result (upto_probe T (client T)) with
  | Normal _ => True
  | Raised e => result (main T) = Raised e
  | Exited c => result (main T) = Exited c
  end.
Proof.
  intros H. unfold main. rewrite script_upto_probe, trace_bind, result_bind.
  destruct (result (upto_probe T (client T))) as [[]|e|c];
    [congruence| |]; rewrite app_nil_r; auto.
Qed.

Lemma upto_probe_result St (T : transport St) (s : St) :
  result (upto_probe T s) = result (probe T s).
Proof. rewrite upto_probe_run. reflexivity. Qed.

(** X1: the probe is the gate of the run.  [list_actions] is called when,
    and only when, [wait_for_available] returned or raised an exception
    whose class is exactly [FlightUnauthenticatedError]. *)
Theorem actions_listed_iff_probe_passes St (T : transport St) :
  In (ListActions options) (calls (trace (main T))) <->
  (exists s', wait_for_available T 5 (client T) = (Returns tt, s')) \/
  (exists e s', wait_for_available T 5 (client T) = (Raises e, s') /\
                exc_class e = FlightUnauthenticatedError).
Proof.
  rewrite <- probe_normal, <- upto_probe_result.
  split.
  - intros Hin.
    destruct (result (upto_probe T (client T))) as [[]|e|c] eqn:R; auto.
    + destruct (@main_stops_at_probe _ T) as [Ht _]; [congruence|].
      rewrite Ht, upto_probe_calls in Hin. cbn in Hin.
      destruct Hin as [Hin|[]]. discriminate.
    + destruct (@main_stops_at_probe _ T) as [Ht _]; [congruence|].
      rewrite Ht, upto_probe_calls in Hin. cbn in Hin.
      destruct Hin as [Hin|[]]. discriminate.
  - intros R. rewrite (main_after_probe T R). cbn [trace].
    rewrite calls_app, trace_bind, calls_app, show_actions_calls.
    apply in_or_app. right. left. reflexivity.
Qed.

Lemma actions_listed_iff_probe_passes_witness :
  In (ListActions options)
     (calls (trace (main (scripted (with_wait (Raises unauthenticated) healthy))))).
Proof.
  apply (proj2 (@actions_listed_iff_probe_passes nat
                  (scripted (with_wait (Raises unauthenticated) healthy)))).
  right. exists unauthenticated, 1%nat. split; reflexivity.
Defined.

(** X2: an exception that is not of class [Exception] (a
    [KeyboardInterrupt]) goes through both handlers untouched.  Raised by
    the probe, it ends the run right after the call, with neither the
    failure line nor an exit; raised by the action, at the call or in the
    stream, it ends the run after the rows already received, with no
    warning line and no exit. *)
Theorem non_exceptions_pass_through St (T : transport St) (e : exn) :
  is_Exception (exc_class e) = false ->
  (forall s',
      wait_for_available T 5 (client T) = (Raises e, s') ->
      main T =
        mkOutcome (Raised e) s'
          [Print (LTrying location); Call (WaitForAvailable 5)]) /\
  (forall r s',
      result (upto_actions T (client T)) = Normal tt ->
      do_action T action options (conn (upto_actions T (client T))) = (r, s') ->
      ending (received r) = Raised e ->
      main T =
        mkOutcome (Raised e) s'
          (trace (upto_actions T (client T))
             ++ Call (DoAction action options) :: row_lines (items (received r)))).
Proof.
  intros Hexc. split.
  - intros s' Hwait. unfold main. rewrite script_upto_probe. unfold bind at 1.
    rewrite upto_probe_run, probe_run, Hwait, Hexc. reflexivity.
  - intros r s' Hreach Hcall Hend.
    rewrite (main_after_actions T Hreach). unfold after_actions, bind.
    rewrite run_action_run, Hcall. cbv zeta. rewrite Hend, Hexc. reflexivity.
Qed.

Lemma non_exceptions_pass_through_witness :
  main (scripted (with_wait (Raises interrupt) healthy)) =
    mkOutcome (Raised interrupt) 1%nat
      [Print (LTrying location); Call (WaitForAvailable 5)] /\
  main (scripted (with_action (Returns (SYield (row "r1") (SFail interrupt))) healthy)) =
    mkOutcome (Raised interrupt) 3%nat
      (trace (upto_actions
                (scripted (with_action (Returns (SYield (row "r1") (SFail interrupt))) healthy))
                0%nat)
         ++ Call (DoAction action options) :: row_lines [row "r1"]).
Proof.
  split.
  - apply (proj1 (@non_exceptions_pass_through nat
             (scripted (with_wait (Raises interrupt) healthy)) interrupt eq_refl)).
    reflexivity.
  - apply (proj2 (@non_exceptions_pass_through nat
             (scripted (with_action (Returns (SYield (row "r1") (SFail interrupt))) healthy))
             interrupt eq_refl)
             (Returns (SYield (row "r1") (SFail interrupt))) 3%nat);
      reflexivity.
Defined.

(** X3: no [Exception] escapes the probe or the action.  When a run ends
    by an exception of class [Exception], that exception was raised by
    [list_actions], or it came out of the flights step after the probe,
    the listing and the action had all ended normally. *)
Theorem exceptions_escape_only_unguarded_steps St (T : transport St) (e : exn) :
  result (main T) = Raised e ->
  is_Exception (exc_class e) = true ->
  (result (upto_probe T (client T)) = Normal tt /\
   exists s',
     list_actions T options (conn (upto_probe T (client T))) = (Raises e, s')) \/
  (result (upto_action T (client T)) = Normal tt /\
   result (show_flights T (conn (upto_action T (client T)))) = Raised e).
Proof.
  intros Hres Hexc. unfold main in Hres.
  rewrite script_upto_action, result_bind in Hres.
  destruct (result (upto_action T (client T))) as [[]|e3|c3] eqn:R3;
    [right; auto| |discriminate].
  injection Hres as ->. left.
  unfold upto_action in R3. rewrite result_bind in R3.
  destruct (result (upto_actions T (client T))) as [[]|e2|c2] eqn:R2;
    [|injection R3 as ->|discriminate].
  - apply run_action_catches in R3. congruence.
  - unfold upto_actions in R2. rewrite result_bind in R2.
    destruct (result (upto_probe T (client T))) as [[]|e1|c1] eqn:R1;
      [|injection R2 as ->|discriminate].
    + split; [reflexivity|]. rewrite show_actions_run in R2.
      destruct (list_actions T options (conn (upto_probe T (client T))))
        as [[actions|e'] s']; [discriminate|].
      injection R2 as ->. eauto.
    + rewrite upto_probe_result in R1. apply probe_raised in R1. congruence.
Qed.

Lemma exceptions_escape_only_unguarded_steps_witness :
  (result (upto_probe (scripted (with_actions (Raises server_error) healthy)) 0%nat)
     = Normal tt /\
   exists s',
     list_actions (scripted (with_actions (Raises server_error) healthy)) options
       (conn (upto_probe (scripted (with_actions (Raises server_error) healthy)) 0%nat))
     = (Raises server_error, s')) \/
  (result (upto_action (scripted (with_actions (Raises server_error) healthy)) 0%nat)
     = Normal tt /\
   result (show_flights (scripted (with_actions (Raises server_error) healthy))
             (conn (upto_action (scripted (with_actions (Raises server_error) healthy)) 0%nat)))
     = Raised server_error).
Proof.
  apply (@exceptions_escape_only_unguarded_steps nat
           (scripted (with_actions (Raises server_error) healthy)) server_error);
    reflexivity.
Defined.

(** X4: the script never exits silently.  When a run ends by [sys.exit],
    the status is 1 and the last thing the run did was to print the
    connection failure line or the warning line of the action. *)
Theorem exits_are_announced St (T : transport St) (c : Z) :
  result (main T) = Exited c ->
  c = 1 /\
  exists t l,
    trace (main T) = t ++ [Print l] /\
    ((exists args, l = LFailed location args) \/ (exists msg, l = LWarn msg)).
Proof.
  intros Hres. unfold main in *.
  rewrite script_upto_action, trace_bind. rewrite script_upto_action, result_bind in Hres.
  destruct (result (upto_action T (client T))) as [[]|e3|c3] eqn:R3;
    [destruct (show_flights_no_exit T _ Hres)|discriminate|].
  injection Hres as ->. rewrite app_nil_r.
  unfold upto_action in *. rewrite trace_bind. rewrite result_bind in R3.
  destruct (result (upto_actions T (client T))) as [[]|e2|c2] eqn:R2;
    [|discriminate|injection R3 as ->].
  - destruct (run_action_exited T _ R3) as (-> & t & msg & ->).
    split; [reflexivity|].
    exists (trace (upto_actions T (client T)) ++ t), (LWarn msg).
    rewrite app_assoc. split; [reflexivity|]. right. eauto.
  - rewrite app_nil_r.
    unfold upto_actions in *. rewrite trace_bind. rewrite result_bind in R2.
    destruct (result (upto_probe T (client T))) as [[]|e1|c1] eqn:R1;
      [destruct (show_actions_no_exit T _ R2)|discriminate|injection R2 as ->].
    rewrite app_nil_r. rewrite upto_probe_result in R1.
    destruct (probe_exited T _ R1) as (-> & args & Ht).
    split; [reflexivity|]. rewrite upto_probe_run. cbn [trace]. rewrite Ht.
    exists [Print (LTrying location); Call (WaitForAvailable 5)],
           (LFailed location args).
    split; [reflexivity|]. left. eauto.
Qed.

Lemma exits_are_announced_witness :
  1 = 1 /\
  exists t l,
    trace (main (scripted (with_action (Raises server_error) healthy))) = t ++ [Print l] /\
    ((exists args, l = LFailed location args) \/ (exists msg, l = LWarn msg)).
Proof.
  apply (@exits_are_announced nat
           (scripted (with_action (Raises server_error) healthy)) 1).
  reflexivity.
Defined.

(** ** Runs that go through, and flights that cannot be fetched *)

(** X5: a run that ends normally did everything.  The probe, the listing
    of the actions, the action and the listing of the flights were each
    called, [list_flights] returned a list, and every flight of that list
    was fetched, once and in order, by the ticket of its first endpoint. *)
Theorem normal_end_is_complete St (T : transport St) :
  result (main T) = Normal tt ->
  result (upto_action T (client T)) = Normal tt /\
  exists flights s' ts,
    list_flights T options (conn (upto_action T (client T))) = (Returns flights, s') /\
    map first_ticket flights = map Some ts /\
    calls (trace (main T)) = chain ts.
Proof.
  intros Hres.
  assert (Hreach : result (upto_action T (client T)) = Normal tt).
  { unfold main in Hres. rewrite script_upto_action, result_bind in Hres.
    destruct (result (upto_action T (client T))) as [[]|e|c];
      [reflexivity|discriminate..]. }
  split; [exact Hreach|].
  rewrite (main_after_action T Hreach) in *. cbn [result trace] in *.
  rewrite calls_app, (upto_action_calls_normal T _ Hreach).
  rewrite show_flights_run in *.
  destruct (list_flights T options (conn (upto_action T (client T))))
    as [[flights|e] s']; [|discriminate].
  destruct flights as [|f flights].
  - exists [], s', []. repeat split.
  - destruct (fetch_loop T (f :: flights) s')
      as (done & rest & ts & Hsplit & Hts & Hcalls & Hall & _).
    cbv zeta in *. cbn [result trace] in *.
    specialize (Hall Hres). subst rest. rewrite app_nil_r in Hsplit. subst done.
    exists (f :: flights), s', ts. split; [reflexivity|]. split; [exact Hts|].
    cbn [calls]. rewrite Hcalls. reflexivity.
Qed.

Lemma normal_end_is_complete_witness :
  result (upto_action (scripted healthy) (client (scripted healthy))) = Normal tt /\
  exists flights s' ts,
    list_flights (scripted healthy) options
      (conn (upto_action (scripted healthy) (client (scripted healthy))))
      = (Returns flights, s') /\
    map first_ticket flights = map Some ts /\
    calls (trace (main (scripted healthy))) = chain ts.
Proof.
  apply (@normal_end_is_complete nat (scripted healthy)). reflexivity.
Defined.

(** X6: a flight without endpoints stops the run at [flight.endpoints[0]].
    When the flights before it were fetched without failure, the run ends
    by an [IndexError]; nothing is printed and nothing is fetched for that
    flight or for any flight after it. *)
Theorem flight_without_endpoints_stops_the_run St (T : transport St)
    (done rest : list flight_info) (f : flight_info) (s1 : St) :
  result (upto_action T (client T)) = Normal tt ->
  list_flights T options (conn (upto_action T (client T)))
    = (Returns (done ++ f :: rest), s1) ->
  result (for_in done (fetch_flight T) s1) = Normal tt ->
  endpoints f = [] ->
  (exists e, result (main T) = Raised e /\ exc_class e = IndexError) /\
  trace (main T) =
    trace (upto_action T (client T))
      ++ Call (ListFlights options)
      :: Print (LFoundFlights (length (done ++ f :: rest)))
      :: trace (for_in done (fetch_flight T) s1).
Proof.
  intros Hreach Hlist Hdone Hep.
  rewrite (main_after_action T Hreach), show_flights_run, Hlist.
  assert (R : result (for_in (done ++ f :: rest) (fetch_flight T) s1) =
              Raised (mkExn IndexError ["list index out of range"]
                        "list index out of range")).
  { apply fetch_loop_raises; [exact Hdone|].
    rewrite fetch_flight_run, Hep. reflexivity. }
  assert (Tr : trace (for_in (done ++ f :: rest) (fetch_flight T) s1) =
               trace (for_in done (fetch_flight T) s1)).
  { rewrite for_in_app, trace_bind, Hdone. cbn [for_in].
    rewrite trace_bind, fetch_flight_run, Hep. cbn [result trace app].
    apply app_nil_r. }
  destruct (done ++ f :: rest) as [|f0 l] eqn:E.
  - destruct done; discriminate.
  - cbv zeta. cbn [result trace]. rewrite R, Tr.
    split; [eexists; split; reflexivity|reflexivity].
Qed.

Lemma flight_without_endpoints_stops_the_run_witness :
  (exists e,
      result (main (scripted (with_flights (Returns [flight_ab; flight_bare; flight_c]) healthy)))
        = Raised e /\
      exc_class e = IndexError) /\
  trace (main (scripted (with_flights (Returns [flight_ab; flight_bare; flight_c]) healthy))) =
    trace (upto_action
             (scripted (with_flights (Returns [flight_ab; flight_bare; flight_c]) healthy))
             0%nat)
      ++ Call (ListFlights options)
      :: Print (LFoundFlights (length ([flight_ab] ++ flight_bare :: [flight_c])))
      :: trace (for_in [flight_ab]
                  (fetch_flight
                     (scripted (with_flights (Returns [flight_ab; flight_bare; flight_c]) healthy)))
                  4%nat).
Proof.
  apply (@flight_without_endpoints_stops_the_run nat
           (scripted (with_flights (Returns [flight_ab; flight_bare; flight_c]) healthy))
           [flight_ab] [flight_c] flight_bare 4%nat); reflexivity.
Defined.

Lemma prints_app (t1 t2 : list event) : prints (t1 ++ t2) = prints t1 ++ prints t2.
Proof.
  induction t1 as [|[c|l] t1 IH]; cbn; rewrite ?IH; reflexivity.
Qed.

(** X7: a failure of [list_actions] is not handled.  Whatever the class
    of the exception, the run ends by it right after the call: the probe
    and [list_actions] are the only calls, no line about actions is
    printed, and the action is not invoked. *)
Theorem failed_listing_ends_the_run St (T : transport St) (e : exn) (s' : St) :
  result (upto_probe T (client T)) = Normal tt ->
  list_actions T options (conn (upto_probe T (client T))) = (Raises e, s') ->
  result (main T) = Raised e /\
  conn (main T) = s' /\
  calls (trace (main T)) = [WaitForAvailable 5; ListActions options] /\
  prints (trace (main T)) = prints (trace (upto_probe T (client T))).
Proof.
  intros Hreach Hlist.
  rewrite (listing_failure_propagates T Hreach Hlist). cbn [result conn trace].
  repeat split.
  - rewrite calls_app, upto_probe_calls. reflexivity.
  - rewrite prints_app. apply app_nil_r.
Qed.

Lemma failed_listing_ends_the_run_witness :
  result (main (scripted (with_actions (Raises interrupt) healthy))) = Raised interrupt /\
  conn (main (scripted (with_actions (Raises interrupt) healthy))) = 2%nat /\
  calls (trace (main (scripted (with_actions (Raises interrupt) healthy)))) =
    [WaitForAvailable 5; ListActions options] /\
  prints (trace (main (scripted (with_actions (Raises interrupt) healthy)))) =
    prints (trace (upto_probe (scripted (with_actions (Raises interrupt) healthy)) 0%nat)).
Proof.
  apply (@failed_listing_ends_the_run nat
           (scripted (with_actions (Raises interrupt) healthy)) interrupt 2%nat);
    reflexivity.
Defined.

(** X8: every run starts the same way.  Whatever the server does, the run
    first announces the location, then calls [wait_for_available] with a
    timeout of 5, and that call is made exactly once in the run. *)
Theorem every_run_probes_once St (T : transport St) :
  (exists rest,
      trace (main T) =
      Print (LTrying location) :: Call (WaitForAvailable 5) :: rest) /\
  count_occ op_eq_dec (map op_of (calls (trace (main T)))) Probe = 1%nat.
Proof.
  assert (S : exists rest,
             trace (main T) =
             Print (LTrying location) :: Call (WaitForAvailable 5) :: rest).
  { unfold main. rewrite script_upto_probe, trace_bind, upto_probe_run.
    cbn [trace result conn]. rewrite probe_run.
    destruct (wait_for_available T 5 (client T)) as [[[]|e] s'].
    - eexists. cbn [trace app]. reflexivity.
    - destruct (is_Exception (exc_class e));
        [destruct (type_is (exc_class e) FlightUnauthenticatedError)|];
        eexists; cbn [trace app]; reflexivity. }
  split; [exact S|].
  destruct S as [rest Hrest].
  destruct (script_calls T (client T)) as [ts Hseg].
  pose proof (@count_segment _ ts Probe Hseg) as Hle.
  unfold main in *. rewrite Hrest in *. cbn [calls map op_of] in *.
  rewrite count_occ_cons_eq in * by reflexivity.
  specialize (Hle ltac:(discriminate)). lia.
Qed.

(** ** [b64encode], whatever the bytes *)

Lemma alphabet_nodup : NoDup Base64.alphabet.
Proof.
  unfold Base64.alphabet, bytes_lit. cbn.
  repeat (constructor; [cbn; intuition discriminate|]). constructor.
Qed.

Lemma pad_not_in : ~ In Base64.pad Base64.alphabet.
Proof. cbv. intuition discriminate. Qed.

Lemma idx_spec n sh : 0 <= sh -> Z.land (Z.shiftr n sh) 63 = (n / 2 ^ sh) mod 64.
Proof.
  intros. change 63 with (Z.ones 6). rewrite Z.land_ones by lia.
  rewrite Z.shiftr_div_pow2 by lia. reflexivity.
Qed.

Lemma lor_shift_add hi lo k :
  0 <= k -> 0 <= lo < 2 ^ k -> Z.lor (Z.shiftl hi k) lo = hi * 2 ^ k + lo.
Proof.
  intros Hk Hlo.
  rewrite <- Z.shiftl_mul_pow2 by lia.
  rewrite <- Z.add_lor_land.
  replace (Z.land (Z.shiftl hi k) lo) with 0; [lia|].
  symmetry. apply Z.bits_inj'. intros i Hi.
  rewrite Z.land_spec, Z.bits_0.
  destruct (Z.lt_ge_cases i k).
  - rewrite Z.shiftl_spec_low by lia. reflexivity.
  - replace (Z.testbit lo i) with false; [apply andb_false_r|].
    symmetry. destruct (Z.eq_dec lo 0) as [->|]; [apply Z.bits_0|].
    apply Z.bits_above_log2; [lia|].
    apply Z.log2_lt_pow2; [lia|].
    apply Z.lt_le_trans with (2 ^ k); [lia|]. apply Z.pow_le_mono_r; lia.
Qed.

Lemma byte_val_range x : 0 <= Base64.byte_val x < 256.
Proof.
  unfold Base64.byte_val. pose proof (Byte.to_N_bounded x). lia.
Qed.

Lemma byte_val_inj x y : Base64.byte_val x = Base64.byte_val y -> x = y.
Proof.
  unfold Base64.byte_val. intros H. apply N2Z.inj in H.
  pose proof (Byte.of_to_N x) as Hx. rewrite H, Byte.of_to_N in Hx. congruence.
Qed.

Lemma sextet_inj n m sh :
  0 <= sh -> Base64.sextet n sh = Base64.sextet m sh ->
  (n / 2 ^ sh) mod 64 = (m / 2 ^ sh) mod 64.
Proof.
  intros Hsh H. unfold Base64.sextet in H. rewrite !idx_spec in H by lia.
  pose proof (Z.mod_pos_bound (n / 2 ^ sh) 64 eq_refl).
  pose proof (Z.mod_pos_bound (m / 2 ^ sh) 64 eq_refl).
  apply (proj1 (NoDup_nth Base64.alphabet Base64.pad) alphabet_nodup) in H.
  - lia.
  - change (length Base64.alphabet) with 64%nat. lia.
  - change (length Base64.alphabet) with 64%nat. lia.
Qed.

Lemma sextet_not_pad n sh : 0 <= sh -> Base64.sextet n sh <> Base64.pad.
Proof.
  intros Hsh H. apply pad_not_in. rewrite <- H. unfold Base64.sextet.
  apply nth_In. rewrite idx_spec by lia.
  pose proof (Z.mod_pos_bound (n / 2 ^ sh) 64 eq_refl).
  change (length Base64.alphabet) with 64%nat. lia.
Qed.

Lemma group2_val x y :
  0 <= y < 256 -> Z.lor (Z.shiftl x 16) (Z.shiftl y 8) = 65536 * x + 256 * y.
Proof.
  intros Hy. rewrite lor_shift_add.
  - rewrite Z.shiftl_mul_pow2 by lia. change (2 ^ 16) with 65536. change (2 ^ 8) with 256. lia.
  - lia.
  - rewrite Z.shiftl_mul_pow2 by lia. change (2 ^ 16) with 65536. change (2 ^ 8) with 256. lia.
Qed.

Lemma group3_val x y z :
  0 <= y < 256 -> 0 <= z < 256 ->
  Z.lor (Z.lor (Z.shiftl x 16) (Z.shiftl y 8)) z = 65536 * x + 256 * y + z.
Proof.
  intros Hy Hz. rewrite group2_val by lia.
  replace (65536 * x + 256 * y) with (Z.shiftl (256 * x + y) 8)
    by (rewrite Z.shiftl_mul_pow2 by lia; change (2 ^ 8) with 256; lia).
  rewrite lor_shift_add; rewrite ?Z.shiftl_mul_pow2 by lia;
    change (2 ^ 8) with 256; lia.
Qed.

Lemma cons_inj A (a b : A) (l l' : list A) : a :: l = b :: l' -> a = b /\ l = l'.
Proof. intros H. injection H. auto. Qed.

Ltac split_groups H :=
  repeat (let E := fresh "E" in apply cons_inj in H; destruct H as [E H]).

Lemma sextet_in_alphabet n sh : 0 <= sh -> In (Base64.sextet n sh) Base64.alphabet.
Proof.
  intros Hsh. unfold Base64.sextet. apply nth_In. rewrite idx_spec by lia.
  pose proof (Z.mod_pos_bound (n / 2 ^ sh) 64 eq_refl).
  change (length Base64.alphabet) with 64%nat. lia.
Qed.

(** X9: the shape of a base64 text.  [b64encode] gives four characters
    for every group of up to three bytes, and every character is one of
    the 64 of the alphabet or the padding [=]. *)
Theorem b64encode_shape (s : bytes) :
  Z.of_nat (length (Base64.b64encode s)) = 4 * ((Z.of_nat (length s) + 2) / 3) /\
  Forall (fun c => In c Base64.alphabet \/ c = Base64.pad) (Base64.b64encode s).
Proof.
  split; [apply b64encode_length|].
  induction s as [| x | x y | x y z rest IH] using list_ind3;
    cbn [Base64.b64encode]; cbv zeta;
    repeat (constructor;
            [first [right; reflexivity | left; apply sextet_in_alphabet; lia]|]);
    auto.
Qed.

(** X10: [b64encode] loses nothing.  Two byte strings with the same
    base64 text are the same byte string, so two different
    [user:password] strings never give the same header value. *)
Theorem b64encode_injective (s1 : bytes) :
  forall s2, Base64.b64encode s1 = Base64.b64encode s2 -> s1 = s2.
Proof.
  induction s1 as [| x | x y | x y z rest IH] using list_ind3;
    intros [|x' [|y' [|z' rest']]] H; cbn [Base64.b64encode] in H; cbv zeta in H;
    try discriminate; try reflexivity.
  all: split_groups H.
  all: repeat match goal with
         | H : Base64.pad = Base64.sextet _ _ |- _ => symmetry in H
         | H : Base64.sextet _ _ = Base64.pad |- _ => apply sextet_not_pad in H; [destruct H|lia]
         end.
  all: repeat match goal with
         | H : Base64.sextet _ _ = Base64.sextet _ _ |- _ => apply sextet_inj in H; [|lia]
         end.
  all: pose proof (byte_val_range x) as Rx; pose proof (byte_val_range x') as Rx'.
  - assert (Base64.byte_val x = Base64.byte_val x') as Hx.
    { rewrite !Z.shiftl_mul_pow2 in * by lia.
      change (2 ^ 16) with 65536 in *. change (2 ^ 18) with 262144 in *.
      change (2 ^ 12) with 4096 in *.
      Z.div_mod_to_equations. lia. }
    apply byte_val_inj in Hx. congruence.
  - pose proof (byte_val_range y) as Ry; pose proof (byte_val_range y') as Ry'.
    rewrite !group2_val in * by assumption.
    change (2 ^ 18) with 262144 in *. change (2 ^ 12) with 4096 in *.
    change (2 ^ 6) with 64 in *.
    assert (Base64.byte_val x = Base64.byte_val x' /\
            Base64.byte_val y = Base64.byte_val y') as [Hx Hy]
      by (Z.div_mod_to_equations; lia).
    apply byte_val_inj in Hx, Hy. congruence.
  - pose proof (byte_val_range y) as Ry; pose proof (byte_val_range y') as Ry'.
    pose proof (byte_val_range z) as Rz; pose proof (byte_val_range z') as Rz'.
    rewrite !group3_val in * by assumption.
    change (2 ^ 18) with 262144 in *. change (2 ^ 12) with 4096 in *.
    change (2 ^ 6) with 64 in *. change (2 ^ 0) with 1 in *.
    assert (Base64.byte_val x = Base64.byte_val x' /\
            Base64.byte_val y = Base64.byte_val y' /\
            Base64.byte_val z = Base64.byte_val z') as (Hx & Hy & Hz)
      by (Z.div_mod_to_equations; lia).
    apply byte_val_inj in Hx, Hy, Hz. apply IH in H. congruence.
Qed.

Lemma b64encode_injective_witness :
  bytes_lit "neo4j:" ++ bytes_lit "password" = bytes_lit "neo4j:password".
Proof.
  apply (@b64encode_injective (bytes_lit "neo4j:" ++ bytes_lit "password")
           (bytes_lit "neo4j:password")).
  reflexivity.
Defined.
